(** * PARADIS: the neural semi-Lagrangian advection step

    A shallow embedding of [model/paradis.py]: the classes
    [NeuralSemiLagrangian] and [Paradis].

    Tensor entries are modelled as real numbers (exact arithmetic); the
    library primitives the source calls ([torch.remainder], [torch.clamp],
    [torch.atan2], [torch.where], [grid_sample]) are written out with the
    semantics the tensor library documents.  Where a statement depends on
    what the tensor library does with a zero divisor, the same source lines
    are instantiated at a second scalar type carrying the IEEE special
    values. *)

From Stdlib Require Import Reals Lra Lia ZArith QArith Qabs Qround List Bool Psatz.
Import ListNotations.

Local Open Scope R_scope.

(** ** Exceptions and fallible computations *)

Inductive exn : Type :=
| ZeroDivisionError
| TypeError
| IndexError
| RuntimeError.

Inductive result (A : Type) : Type :=
| Ok (a : A)
| Raise (e : exn).

Arguments Ok {A} a.
Arguments Raise {A} e.

Definition bind {A B : Type} (r : result A) (k : A -> result B) : result B :=
  match r with
  | Ok a => k a
  | Raise e => Raise e
  end.

Notation "x <- c ;; k" := (bind c (fun x => k))
  (at level 61, c at next level, right associativity).

Notation "' pat <- c ;; k" :=
  (bind c (fun x => match x with pat => k end))
  (at level 61, pat pattern, c at next level, right associativity).

Definition raises {A : Type} (r : result A) : Prop :=
  exists e, r = Raise e.

Definition returns {A : Type} (r : result A) : Prop :=
  exists a, r = Ok a.

(** ** Scalar primitives of the tensor library, on real entries *)

Module Torch.

(** [torch.remainder(a, b)]: the result has the sign of the divisor. *)
Definition remainder (a b : R) : R := a - b * IZR (Zfloor (a / b)).

(** [torch.clamp(x, lo, hi)] is [min(max(x, lo), hi)]. *)
Definition clamp (x lo hi : R) : R := Rmin (Rmax x lo) hi.

(** [torch.atan2(y, x)]: the angle of the point [(x, y)], in (-pi, pi]. *)
Definition atan2 (y x : R) : R :=
  if Rlt_dec 0 x then atan (y / x)
  else if Rlt_dec x 0 then
    if Rle_dec 0 y then atan (y / x) + PI else atan (y / x) - PI
  else if Rlt_dec 0 y then PI / 2
  else if Rlt_dec y 0 then - (PI / 2)
  else 0.

Definition ltb (x y : R) : bool := if Rlt_dec x y then true else false.
Definition leb (x y : R) : bool := if Rle_dec x y then true else false.

(** [torch.where(c, a, b)], elementwise. *)
Definition where_ {T : Type} (c : bool) (a b : T) : T := if c then a else b.

End Torch.

(** ** [NeuralSemiLagrangian._transform_to_latlon], elementwise *)

Definition sin_lat_of (lat_prime lon_prime lat_p : R) : R :=
  let sin_lat_prime := sin lat_prime in
  let cos_lat_prime := cos lat_prime in
  let cos_lon_prime := cos lon_prime in
  let sin_lat_p := sin lat_p in
  let cos_lat_p := cos lat_p in
  sin_lat_prime * cos_lat_p + cos_lat_prime * cos_lon_prime * sin_lat_p.

(** The argument handed to [arcsin]. *)
Definition clamped_sin_lat (lat_prime lon_prime lat_p : R) : R :=
  Torch.clamp (sin_lat_of lat_prime lon_prime lat_p) (-1 + 1e-7) (1 - 1e-7).

(** The longitude component: lines 55-61. *)
Definition transform_lon (lat_prime lon_prime lat_p lon_p : R) : R :=
  let sin_lat_prime := sin lat_prime in
  let cos_lat_prime := cos lat_prime in
  let sin_lon_prime := sin lon_prime in
  let cos_lon_prime := cos lon_prime in
  let sin_lat_p := sin lat_p in
  let cos_lat_p := cos lat_p in
  let num := cos_lat_prime * sin_lon_prime in
  let den := cos_lat_prime * cos_lon_prime * cos_lat_p
             - sin_lat_prime * sin_lat_p in
  let lon := lon_p + Torch.atan2 num den in
  let lon := Torch.remainder (lon + 2 * PI) (2 * PI) in
  lon.

(** The latitude component: lines 51-52. *)
Definition transform_lat (lat_prime lon_prime lat_p : R) : R :=
  asin (clamped_sin_lat lat_prime lon_prime lat_p).

Definition transform_to_latlon (lat_prime lon_prime lat_p lon_p : R) : R * R :=
  (transform_lat lat_prime lon_prime lat_p,
   transform_lon lat_prime lon_prime lat_p lon_p).

(** ** The scalar operations the grid mapping uses

    Lines 113-128 of [forward] use only [+ - * /], [torch.remainder],
    [torch.abs], unary minus, comparisons and [torch.where].  They are
    embedded once, over any entry type offering these operations. *)

Class Scalar (T : Type) : Type := {
  s_const : Z -> T;
  s_add : T -> T -> T;
  s_sub : T -> T -> T;
  s_mul : T -> T -> T;
  s_div : T -> T -> T;
  s_neg : T -> T;
  s_abs : T -> T;
  s_remainder : T -> T -> T;
  s_lt : T -> T -> bool;
  s_le : T -> T -> bool;
  s_min : T -> T -> T;
  s_max : T -> T -> T
}.

Declare Scope torch_scope.
Delimit Scope torch_scope with torch.
Infix "+" := s_add : torch_scope.
Infix "-" := s_sub : torch_scope.
Infix "*" := s_mul : torch_scope.
Infix "/" := s_div : torch_scope.
Notation "- x" := (s_neg x) : torch_scope.
Infix "<?" := s_lt : torch_scope.
Infix "<=?" := s_le : torch_scope.
Notation "x >? y" := (s_lt y x) : torch_scope.

(** Real entries stand for the finite values of the tensors, computed
    without rounding.  The quotient of lines 113-114 is the real one, so
    what is stated about coordinates on real entries is stated for grids
    with min < max; for equal extrema the entries are not finite, and the
    instance with the IEEE special values below applies. *)
#[global] Instance RealScalar : Scalar R := {
  s_const := IZR;
  s_add := Rplus;
  s_sub := Rminus;
  s_mul := Rmult;
  s_div := Rdiv;
  s_neg := Ropp;
  s_abs := Rabs;
  s_remainder := Torch.remainder;
  s_lt := Torch.ltb;
  s_le := Torch.leb;
  s_min := Rmin;
  s_max := Rmax
}.

(** Entries with the IEEE special values.  Finite values are exact
    rationals (no rounding, no overflow); the zero divisors that occur are
    differences [x - x], which are [+0] in IEEE arithmetic. *)

Inductive ieee : Type :=
| Fin (q : Q)
| PInf
| NInf
| NaN.

Module IEEE.

Definition is_finite (x : ieee) : bool :=
  match x with Fin _ => true | _ => false end.

Definition is_nan (x : ieee) : bool :=
  match x with NaN => true | _ => false end.

Definition neg (x : ieee) : ieee :=
  match x with
  | Fin q => Fin (- q)
  | PInf => NInf
  | NInf => PInf
  | NaN => NaN
  end.

Definition abs (x : ieee) : ieee :=
  match x with
  | Fin q => Fin (Qabs q)
  | PInf | NInf => PInf
  | NaN => NaN
  end.

Definition add (x y : ieee) : ieee :=
  match x, y with
  | NaN, _ | _, NaN => NaN
  | Fin a, Fin b => Fin (a + b)
  | PInf, NInf | NInf, PInf => NaN
  | PInf, _ | _, PInf => PInf
  | NInf, _ | _, NInf => NInf
  end.

Definition sub (x y : ieee) : ieee := add x (neg y).

(** The infinity with the sign of [q], or [NaN] for [q = 0]. *)
Definition signed_inf (q : Q) : ieee :=
  match Qcompare q 0 with
  | Gt => PInf
  | Lt => NInf
  | Eq => NaN
  end.

Definition mul (x y : ieee) : ieee :=
  match x, y with
  | NaN, _ | _, NaN => NaN
  | Fin a, Fin b => Fin (a * b)
  | Fin a, PInf | PInf, Fin a => signed_inf a
  | Fin a, NInf | NInf, Fin a => signed_inf (- a)
  | PInf, PInf | NInf, NInf => PInf
  | PInf, NInf | NInf, PInf => NInf
  end.

(** [Fin a / Fin 0]: the divisor is [+0]. *)
Definition div (x y : ieee) : ieee :=
  match x, y with
  | NaN, _ | _, NaN => NaN
  | Fin a, Fin b => if Qeq_bool b 0 then signed_inf a else Fin (a / b)
  | Fin _, (PInf | NInf) => Fin 0
  | PInf, Fin b => if Qle_bool 0 b then PInf else NInf
  | NInf, Fin b => if Qle_bool 0 b then NInf else PInf
  | (PInf | NInf), (PInf | NInf) => NaN
  end.

(** [torch.remainder] on floating-point entries: [fmod] followed by the
    sign adjustment towards the divisor. *)
Definition remainder (x y : ieee) : ieee :=
  match x, y with
  | NaN, _ | _, NaN => NaN
  | (PInf | NInf), _ => NaN
  | Fin a, Fin b =>
      if Qeq_bool b 0 then NaN
      else Fin (a - b * inject_Z (Qfloor (a / b)))
  | Fin a, PInf => if Qle_bool 0 a then Fin a else PInf
  | Fin a, NInf => if Qle_bool a 0 then Fin a else NInf
  end.

(** Comparisons: every comparison with [NaN] is false. *)
Definition ltb (x y : ieee) : bool :=
  match x, y with
  | NaN, _ | _, NaN => false
  | Fin a, Fin b => negb (Qle_bool b a)
  | NInf, (Fin _ | PInf) => true
  | Fin _, PInf => true
  | _, _ => false
  end.

Definition leb (x y : ieee) : bool :=
  match x, y with
  | NaN, _ | _, NaN => false
  | Fin a, Fin b => Qle_bool a b
  | NInf, _ => true
  | _, PInf => true
  | _, _ => false
  end.

(** [torch.min] and [torch.max] propagate [NaN]. *)
Definition min (x y : ieee) : ieee :=
  match x, y with
  | NaN, _ | _, NaN => NaN
  | _, _ => if leb x y then x else y
  end.

Definition max (x y : ieee) : ieee :=
  match x, y with
  | NaN, _ | _, NaN => NaN
  | _, _ => if leb x y then y else x
  end.

End IEEE.

#[global] Instance IeeeScalar : Scalar ieee := {
  s_const := fun z => Fin (inject_Z z);
  s_add := IEEE.add;
  s_sub := IEEE.sub;
  s_mul := IEEE.mul;
  s_div := IEEE.div;
  s_neg := IEEE.neg;
  s_abs := IEEE.abs;
  s_remainder := IEEE.remainder;
  s_lt := IEEE.ltb;
  s_le := IEEE.leb;
  s_min := IEEE.min;
  s_max := IEEE.max
}.

(** ** [NeuralSemiLagrangian.forward], lines 113-128: the grid mapping *)

Section GridMapping.

Context {T : Type} `{Scalar T}.
Local Open Scope torch_scope.

(** The constants of the source. *)
Let c0 : T := s_const 0.
Let c1 : T := s_const 1.
Let c2 : T := s_const 2.

(** Lines 113-114. *)
Definition rescale (dep lo hi : T) : T :=
  c2 * (dep - lo) / (hi - lo) - c1.

(** Line 117. *)
Definition wrap_longitude (grid_x : T) : T :=
  s_remainder (grid_x + c1) c2 - c1.

(** Lines 120-124; both masks are taken before [grid_x] is updated. *)
Definition geocyclic_roll (grid_x grid_y : T) : T :=
  let geo_mask_left := grid_x <=? c0 in
  let geo_mask_right := grid_x >? c0 in
  let lat_mask_outer := s_abs grid_y >? c1 in
  let grid_x :=
    Torch.where_ (lat_mask_outer && geo_mask_left) (grid_x + c1) grid_x in
  let grid_x :=
    Torch.where_ (lat_mask_outer && geo_mask_right) (grid_x - c1) grid_x in
  grid_x.

(** Lines 127-128; the second [where] reads the result of the first. *)
Definition mirror_latitude (grid_y : T) : T :=
  let grid_y := Torch.where_ (grid_y <? - c1) (- (c2 + grid_y)) grid_y in
  let grid_y := Torch.where_ (grid_y >? c1) (c2 - grid_y) grid_y in
  grid_y.

(** Lines 113-128 at one tensor position. *)
Definition grid_mapping
    (lat_dep lon_dep min_lat max_lat min_lon max_lon : T) : T * T :=
  let grid_x := rescale lon_dep min_lon max_lon in
  let grid_y := rescale lat_dep min_lat max_lat in
  let grid_x := wrap_longitude grid_x in
  let grid_x := geocyclic_roll grid_x grid_y in
  let grid_y := mirror_latitude grid_y in
  (grid_x, grid_y).

(** [torch.min(t)] and [torch.max(t)] over all entries of a tensor; an
    empty tensor has no extremum and the call raises. *)
Definition reduce_min (entries : list T) : result T :=
  match entries with
  | [] => Raise RuntimeError
  | x :: xs => Ok (fold_left s_min xs x)
  end.

Definition reduce_max (entries : list T) : result T :=
  match entries with
  | [] => Raise RuntimeError
  | x :: xs => Ok (fold_left s_max xs x)
  end.

(** Lines 102-128 at one tensor position: the extrema of the grids, then
    the mapping of the departure point. *)
Definition normalized_grid
    (lat_grid lon_grid : list T) (lat_dep lon_dep : T) : result (T * T) :=
  min_lat <- reduce_min lat_grid ;;
  max_lat <- reduce_max lat_grid ;;
  min_lon <- reduce_min lon_grid ;;
  max_lon <- reduce_max lon_grid ;;
  Ok (grid_mapping lat_dep lon_dep min_lat max_lat min_lon max_lon).

End GridMapping.

(** The grid mapping in the words of the specification (section 4.2),
    on real entries: rescale, wrap, pole-crossing shift, mirror.  The
    mirror is the case split the specification gives, on the rescaled
    [grid_y]: [-(2 + grid_y)] below -1, [2 - grid_y] above 1. *)
Definition spec_grid_mapping
    (lat_dep lon_dep min_lat max_lat min_lon max_lon : R) : R * R :=
  let x0 := 2 * (lon_dep - min_lon) / (max_lon - min_lon) - 1 in
  let y0 := 2 * (lat_dep - min_lat) / (max_lat - min_lat) - 1 in
  let x1 := ((x0 + 1) - 2 * IZR (Zfloor ((x0 + 1) / 2))) - 1 in
  let x2 :=
    if Rlt_dec 1 (Rabs y0)
    then (if Rle_dec x1 0 then x1 + 1 else x1 - 1)
    else x1 in
  let y1 :=
    if Rlt_dec y0 (-1) then - (2 + y0)
    else if Rlt_dec 1 y0 then 2 - y0
    else y0 in
  (x2, y1).

(** ** Tensors

    A tensor is a shape and its entries, addressed by multi-index.  The
    row-major (contiguous) layout is what [view] and [reshape] rely on:
    they keep the flat position of every entry. *)

Record Tensor : Type := mkTensor {
  shape : list nat;
  item : list nat -> R
}.

Fixpoint numel (sh : list nat) : nat :=
  match sh with
  | [] => 1%nat
  | d :: sh' => (d * numel sh')%nat
  end.

(** Flat position of a multi-index, and back. *)
Fixpoint ravel (sh idx : list nat) : nat :=
  match sh, idx with
  | _ :: sh', i :: idx' => (i * numel sh' + ravel sh' idx')%nat
  | _, _ => 0%nat
  end.

Fixpoint unravel (sh : list nat) (k : nat) : list nat :=
  match sh with
  | [] => []
  | _ :: sh' => (k / numel sh')%nat :: unravel sh' (k mod numel sh')%nat
  end.

Fixpoint in_range (sh idx : list nat) : Prop :=
  match sh, idx with
  | [], [] => True
  | d :: sh', i :: idx' => (i < d)%nat /\ in_range sh' idx'
  | _, _ => False
  end.

(** All entries, in layout order. *)
Definition entries (t : Tensor) : list R :=
  map (fun k => item t (unravel (shape t) k)) (seq 0 (numel (shape t))).

(** [t.view(sh)] and [t.reshape(sh)] of a contiguous tensor. *)
Definition view (t : Tensor) (sh : list nat) : result Tensor :=
  if (numel (shape t) =? numel sh)%nat
  then Ok {| shape := sh;
             item := fun idx => item t (unravel (shape t) (ravel sh idx)) |}
  else Raise RuntimeError.

(** [t.shape[-2:]] and [t.size(-1)], [t.size(-2)]. *)
Definition last2 (sh : list nat) : list nat :=
  skipn (length sh - 2)%nat sh.

Definition size_last (t : Tensor) : nat := nth 0 (rev (shape t)) 0%nat.
Definition size_last2 (t : Tensor) : nat := nth 1 (rev (shape t)) 0%nat.

(** [t[:, k]]: the index [k] along dimension 1. *)
Definition select1 (t : Tensor) (k : nat) : Tensor :=
  {| shape := match shape t with
              | d0 :: _ :: rest => d0 :: rest
              | sh => sh
              end;
     item := fun idx => match idx with
                        | b :: rest => item t (b :: k :: rest)
                        | [] => 0
                        end |}.

(** [t.unsqueeze(1).expand(-1, c, -1, -1)] of a three-dimensional tensor. *)
Definition unsqueeze_expand (t : Tensor) (c : nat) : result Tensor :=
  match shape t with
  | [b; h; w] =>
      Ok {| shape := [b; c; h; w];
            item := fun idx => match idx with
                               | i :: _ :: rest => item t (i :: rest)
                               | _ => 0
                               end |}
  | _ => Raise RuntimeError
  end.

(** Broadcasting of tensors of equal rank: a dimension of size one is
    repeated. *)
Fixpoint broadcast (sh1 sh2 : list nat) : result (list nat) :=
  match sh1, sh2 with
  | [], [] => Ok []
  | d1 :: r1, d2 :: r2 =>
      r <- broadcast r1 r2 ;;
      if (d1 =? d2)%nat then Ok (d1 :: r)
      else if (d1 =? 1)%nat then Ok (d2 :: r)
      else if (d2 =? 1)%nat then Ok (d1 :: r)
      else Raise RuntimeError
  | _, _ => Raise RuntimeError
  end.

Fixpoint bidx (sh idx : list nat) : list nat :=
  match sh, idx with
  | d :: sh', i :: idx' => (if (d =? 1)%nat then 0%nat else i) :: bidx sh' idx'
  | _, _ => []
  end.

(** The entry of [t] that takes part at position [idx] of a broadcast
    result. *)
Definition bitem (t : Tensor) (idx : list nat) : R :=
  item t (bidx (shape t) idx).

Definition full (sh : list nat) (c : R) : Tensor :=
  {| shape := sh; item := fun _ => c |}.

Definition tmap (f : R -> R) (t : Tensor) : Tensor :=
  {| shape := shape t; item := fun idx => f (item t idx) |}.

(** An elementwise combination of several tensors: the shape is the
    broadcast of the operands' shapes. *)
Fixpoint broadcast_all (sh : list nat) (shs : list (list nat))
  : result (list nat) :=
  match shs with
  | [] => Ok sh
  | sh' :: rest => r <- broadcast sh sh' ;; broadcast_all r rest
  end.

Definition pointwise (sh : list nat) (shs : list (list nat))
    (f : list nat -> R) : result Tensor :=
  r <- broadcast_all sh shs ;;
  Ok {| shape := r; item := f |}.

(** [torch.stack([a, b], dim=-1)]. *)
Definition stack_last (a b : Tensor) : result Tensor :=
  if list_eq_dec Nat.eq_dec (shape a) (shape b)
  then Ok {| shape := shape a ++ [2%nat];
             item := fun idx =>
               match last idx 0%nat with
               | O => item a (removelast idx)
               | _ => item b (removelast idx)
               end |}
  else Raise RuntimeError.

(** ** [torch.nn.functional.grid_sample] with [mode="bicubic"],
       [padding_mode="border"], [align_corners=True] *)

Module GridSample.

Definition cubic_convolution1 (x A : R) : R :=
  ((A + 2) * x - (A + 3)) * x * x + 1.

Definition cubic_convolution2 (x A : R) : R :=
  ((A * x - 5 * A) * x + 8 * A) * x - 4 * A.

Definition A : R := -0.75.

Definition cubic_interp1d (x0 x1 x2 x3 t : R) : R :=
  x0 * cubic_convolution2 (t + 1) A
  + x1 * cubic_convolution1 t A
  + x2 * cubic_convolution1 (1 - t) A
  + x3 * cubic_convolution2 (2 - t) A.

(** Pixel position of a normalized coordinate when corners are aligned:
    -1 is the centre of pixel 0 and +1 the centre of pixel [size - 1]. *)
Definition unnormalize (coord : R) (size : nat) : R :=
  (coord + 1) / 2 * (INR size - 1).

(** Border padding: tap positions are clipped into the image. *)
Definition clip_coordinates (x : Z) (size : nat) : Z :=
  Z.min (Z.of_nat size - 1) (Z.max x 0).

Definition get_value_bounded
    (pix : nat -> nat -> R) (H W : nat) (x y : Z) : R :=
  let x := clip_coordinates x W in
  let y := clip_coordinates y H in
  if ((0 <=? x) && (x <? Z.of_nat W) && (0 <=? y) && (y <? Z.of_nat H))%Z
  then pix (Z.to_nat y) (Z.to_nat x)
  else 0.

(** One output value: [pix] is the image, [H] by [W], and [(x, y)] the
    normalized sampling coordinate. *)
Definition bicubic (pix : nat -> nat -> R) (H W : nat) (x y : R) : R :=
  let ix := unnormalize x W in
  let iy := unnormalize y H in
  let ix_nw := Zfloor ix in
  let iy_nw := Zfloor iy in
  let tx := ix - IZR ix_nw in
  let ty := iy - IZR iy_nw in
  let row (i : Z) :=
    cubic_interp1d
      (get_value_bounded pix H W (ix_nw - 1) (iy_nw - 1 + i))
      (get_value_bounded pix H W (ix_nw + 0) (iy_nw - 1 + i))
      (get_value_bounded pix H W (ix_nw + 1) (iy_nw - 1 + i))
      (get_value_bounded pix H W (ix_nw + 2) (iy_nw - 1 + i))
      tx in
  cubic_interp1d (row 0%Z) (row 1%Z) (row 2%Z) (row 3%Z) ty.

(** [input] is [N, C, H, W], [grid] is [N, Ho, Wo, 2]; the result is
    [N, C, Ho, Wo]. *)
Definition grid_sample (input grid : Tensor) : result Tensor :=
  match shape input, shape grid with
  | [N; C; H; W], [Ng; Ho; Wo; 2%nat] =>
      if (N =? Ng)%nat
      then Ok {| shape := [N; C; Ho; Wo];
                 item := fun idx =>
                   match idx with
                   | [n; c; i; j] =>
                       bicubic (fun y x => item input [n; c; y; x]) H W
                               (item grid [n; i; j; 0%nat])
                               (item grid [n; i; j; 1%nat])
                   | _ => 0
                   end |}
      else Raise RuntimeError
  | _, _ => Raise RuntimeError
  end.

End GridSample.

(** ** Python values *)

#[local] Set Warnings "-register-all".

Inductive value : Type :=
| VTensor (t : Tensor)
| VFloat (r : R)
| VTuple (l : list value).

(** ** [class NeuralSemiLagrangian] *)

(** The two kinds of velocity predictor: [CLP] returns the velocities,
    [VariationalCLP] returns the velocities and a loss. *)
Inductive VelocityNet : Type :=
| DetNet (f : Tensor -> Tensor)
| VarNet (f : Tensor -> Tensor * Tensor).

Record NeuralSemiLagrangian : Type := {
  padding : nat;
  padding_interp : Tensor -> Tensor;
  hidden_dim : nat;
  variational : bool;
  velocity_net : VelocityNet
}.

(** Lines 74-80.  [__init__] stores a [VarNet] exactly when [variational]
    is set; the other combinations do not unpack. *)
Definition call_velocity_net (m : NeuralSemiLagrangian) (x : Tensor)
  : result (Tensor * Tensor) :=
  let kl_loss := full [] 0 in
  match variational m, velocity_net m with
  | true, VarNet f => Ok (f x)
  | false, DetNet f => Ok (f x, kl_loss)
  | _, _ => Raise TypeError
  end.

(** Lines 84-90. *)
Definition split_velocities (hidden_dim batch_size : nat) (velocities : Tensor)
  : result (Tensor * Tensor) :=
  velocities <- view velocities
                  (batch_size :: 2%nat :: hidden_dim
                   :: last2 (shape velocities)) ;;
  let u := select1 velocities 0 in
  let v := select1 velocities 1 in
  Ok (u, v).

(** Lines 94-128: the sampling coordinates, before the padding rescale. *)
Definition sampling_grid
    (hidden_dim : nat) (u v lat_grid lon_grid : Tensor) (dt : R)
  : result (Tensor * Tensor) :=
  let lon_prime := tmap (fun x => - x * dt) u in
  let lat_prime := tmap (fun x => - x * dt) v in
  lat_grid <- unsqueeze_expand lat_grid hidden_dim ;;
  lon_grid <- unsqueeze_expand lon_grid hidden_dim ;;
  min_lat <- reduce_min (entries lat_grid) ;;
  max_lat <- reduce_max (entries lat_grid) ;;
  min_lon <- reduce_min (entries lon_grid) ;;
  max_lon <- reduce_max (entries lon_grid) ;;
  lat_dep <- pointwise (shape lat_prime) [shape lon_prime; shape lat_grid]
               (fun idx => transform_lat (bitem lat_prime idx)
                             (bitem lon_prime idx) (bitem lat_grid idx)) ;;
  lon_dep <- pointwise (shape lat_prime)
               [shape lon_prime; shape lat_grid; shape lon_grid]
               (fun idx => transform_lon (bitem lat_prime idx)
                             (bitem lon_prime idx) (bitem lat_grid idx)
                             (bitem lon_grid idx)) ;;
  let grid_x := tmap (fun x => rescale x min_lon max_lon) lon_dep in
  let grid_y := tmap (fun y => rescale y min_lat max_lat) lat_dep in
  let grid_x := tmap wrap_longitude grid_x in
  grid_x <- pointwise (shape grid_x) [shape grid_y]
              (fun idx => geocyclic_roll (bitem grid_x idx)
                                         (bitem grid_y idx)) ;;
  let grid_y := tmap mirror_latitude grid_y in
  Ok (grid_x, grid_y).

(** Lines 99-107 for one of the two grids: expansion over the channels,
    then the extrema. *)
Definition expanded_extrema (grid : Tensor) (hidden_dim : nat)
  : result (R * R) :=
  grid <- unsqueeze_expand grid hidden_dim ;;
  lo <- reduce_min (entries grid) ;;
  hi <- reduce_max (entries grid) ;;
  Ok (lo, hi).

(** Lines 94-128 at one tensor position: [u] and [v] are the velocity
    entries, [(lat_p, lon_p)] the arrival point. *)
Definition sampling_coordinate
    (dt u v lat_p lon_p min_lat max_lat min_lon max_lon : R) : R * R :=
  let lon_prime := - u * dt in
  let lat_prime := - v * dt in
  let '(lat_dep, lon_dep) :=
    transform_to_latlon lat_prime lon_prime lat_p lon_p in
  grid_mapping lat_dep lon_dep min_lat max_lat min_lon max_lon.

(** Lines 139-140. *)
Definition rescale_to_padded (coord : R) (size padded_size : nat) : R :=
  coord * INR size / INR padded_size.

Definition forward (m : NeuralSemiLagrangian)
    (hidden_features lat_grid lon_grid : Tensor) (dt : R) : result value :=
  let batch_size := nth 0 (shape hidden_features) 0%nat in
  '(velocities, kl_loss) <- call_velocity_net m hidden_features ;;
  '(u, v) <- split_velocities (hidden_dim m) batch_size velocities ;;
  '(grid_x, grid_y) <- sampling_grid (hidden_dim m) u v lat_grid lon_grid dt ;;
  grid_x <- view grid_x
              ((batch_size * hidden_dim m)%nat :: last2 (shape grid_x)) ;;
  grid_y <- view grid_y
              ((batch_size * hidden_dim m)%nat :: last2 (shape grid_y)) ;;
  let dynamic_padded := padding_interp m hidden_features in
  let grid_x :=
    tmap (fun x => rescale_to_padded x (size_last hidden_features)
                     (size_last dynamic_padded)) grid_x in
  let grid_y :=
    tmap (fun y => rescale_to_padded y (size_last2 hidden_features)
                     (size_last2 dynamic_padded)) grid_y in
  grid <- stack_last grid_x grid_y ;;
  let dynamic_padded := padding_interp m hidden_features in
  dynamic_padded <- view dynamic_padded
                      ((batch_size * hidden_dim m)%nat :: 1%nat
                       :: last2 (shape dynamic_padded)) ;;
  interpolated <- GridSample.grid_sample dynamic_padded grid ;;
  interpolated <- view interpolated
                    (batch_size :: hidden_dim m
                     :: last2 (shape interpolated)) ;;
  if variational m
  then Ok (VTuple [VTensor interpolated; VTensor kl_loss])
  else Ok (VTensor interpolated).

(** Lines 167-170: what [forward] returns around the advected tensor. *)
Definition wrap_output (m : NeuralSemiLagrangian) (out kl_loss : Tensor)
  : value :=
  if variational m then VTuple [VTensor out; VTensor kl_loss]
  else VTensor out.

(** ** Constructing the advection layer *)

(** The module classes [CLP] (model/clp_block.py), [VariationalCLP]
    (model/clp_variational.py) and [GeoCyclicPadding] (model/padding.py)
    are imported by the source and not part of it: they are parameters.  A
    constructed module is the function it computes. *)
Record Collaborators : Type := {
  CLP : nat -> nat -> nat * nat -> Tensor -> Tensor;
  VariationalCLP : nat -> nat -> nat * nat -> Tensor -> Tensor * Tensor;
  GeoCyclicPadding : nat -> Tensor -> Tensor
}.

(** Modelled from the spec: the interfaces of the imported modules
    (section 6).  A predictor built for [c_out] output channels maps
    [B, c_in, H, W] to [B, c_out, H, W], and the padding maps
    [B, C, H, W] to [B, C, H + 2 halo, W + 2 halo]. *)
Record interfaces (lib : Collaborators) : Prop := {
  CLP_shape :
    forall c_in c_out mesh x B H W,
      shape x = [B; c_in; H; W] ->
      shape (CLP lib c_in c_out mesh x) = [B; c_out; H; W];
  VariationalCLP_shape :
    forall c_in c_out mesh x B H W,
      shape x = [B; c_in; H; W] ->
      shape (fst (VariationalCLP lib c_in c_out mesh x)) = [B; c_out; H; W];
  GeoCyclicPadding_shape :
    forall halo x B C H W,
      shape x = [B; C; H; W] ->
      shape (GeoCyclicPadding lib halo x)
      = [B; C; (H + 2 * halo)%nat; (W + 2 * halo)%nat]
}.

(** [NeuralSemiLagrangian.__init__]. *)
Definition NeuralSemiLagrangian_init (lib : Collaborators)
    (hidden_dim : nat) (mesh_size : nat * nat) (variational : bool)
  : NeuralSemiLagrangian :=
  let padding := 1%nat in
  {| padding := padding;
     padding_interp := GeoCyclicPadding lib padding;
     hidden_dim := hidden_dim;
     variational := variational;
     velocity_net :=
       if negb variational
       then DetNet (CLP lib hidden_dim (2 * hidden_dim)%nat mesh_size)
       else VarNet (VariationalCLP lib hidden_dim (2 * hidden_dim)%nat
                      mesh_size) |}.

(** Modelled from the spec: [GeoCyclicPadding] (model/padding.py is not
    among the sources), "periodic in the longitude axis, pole-consistent in
    the latitude axis": a halo column repeats the column one period away,
    and a halo row beyond a pole repeats the rows next to that pole as seen
    from the opposite meridian (half a period away in longitude). *)
Definition geocyclic_padding (halo : nat) (x : Tensor) : Tensor :=
  match shape x with
  | [B; C; H; W] =>
      {| shape := [B; C; (H + 2 * halo)%nat; (W + 2 * halo)%nat];
         item := fun idx =>
           match idx with
           | [b; c; i; j] =>
               let r := (Z.of_nat i - Z.of_nat halo)%Z in
               let col := ((Z.of_nat j - Z.of_nat halo) mod Z.of_nat W)%Z in
               let opp := ((col + Z.of_nat W / 2) mod Z.of_nat W)%Z in
               if (r <? 0)%Z
               then item x [b; c; Z.to_nat (- 1 - r); Z.to_nat opp]
               else if (r <? Z.of_nat H)%Z
               then item x [b; c; Z.to_nat r; Z.to_nat col]
               else item x [b; c; Z.to_nat (2 * Z.of_nat H - 1 - r);
                            Z.to_nat opp]
           | _ => 0
           end |}
  | _ => x
  end.

(** A predictor with all weights zero: the velocity is zero everywhere
    (and the variational loss is zero). *)
Definition zero_predictor (c_out : nat) (x : Tensor) : Tensor :=
  match shape x with
  | [B; _; H; W] => full [B; c_out; H; W] 0
  | sh => full sh 0
  end.

Definition still_air : Collaborators :=
  {| CLP := fun _ c_out _ => zero_predictor c_out;
     VariationalCLP := fun _ c_out _ x => (zero_predictor c_out x, full [] 0);
     GeoCyclicPadding := geocyclic_padding |}.

(** A predictor whose output is a uniform wind: every channel of the
    first half holds [u0], every channel of the second half [v0]. *)
Definition uniform_wind_predictor (u0 v0 : R) (c_out : nat) (x : Tensor)
  : Tensor :=
  match shape x with
  | [B; _; H; W] =>
      {| shape := [B; c_out; H; W];
         item := fun idx =>
           match idx with
           | [_; k; _; _] => if (k <? c_out / 2)%nat then u0 else v0
           | _ => 0
           end |}
  | sh => full sh 0
  end.

Definition uniform_wind (u0 v0 : R) : Collaborators :=
  {| CLP := fun _ c_out _ => uniform_wind_predictor u0 v0 c_out;
     VariationalCLP :=
       fun _ c_out _ x => (uniform_wind_predictor u0 v0 c_out x, full [] 0);
     GeoCyclicPadding := geocyclic_padding |}.

(** A grid whose extrema coincide. *)
Definition degenerate (grid : list ieee) : Prop :=
  exists lo hi,
    reduce_min grid = Ok (Fin lo) /\ reduce_max grid = Ok (Fin hi)
    /\ (lo == hi)%Q.

(** ** Python operators on the values [Paradis.forward] handles *)

(** [a + b] on tensors, with broadcasting. *)
Definition tensor_add (a b : Tensor) : result Tensor :=
  pointwise (shape a) [shape b] (fun idx => bitem a idx + bitem b idx).

Definition tensor_sub (a b : Tensor) : result Tensor :=
  pointwise (shape a) [shape b] (fun idx => bitem a idx - bitem b idx).

(** [r * v] for a Python float [r]: a tensor is scaled, a float is
    multiplied, a tuple cannot be multiplied by a float. *)
Definition py_float_mul (r : R) (v : value) : result value :=
  match v with
  | VTensor t => Ok (VTensor (tmap (fun x => r * x) t))
  | VFloat s => Ok (VFloat (r * s))
  | VTuple _ => Raise TypeError
  end.

(** [a + b]: tuples concatenate with tuples only. *)
Definition py_add (a b : value) : result value :=
  match a, b with
  | VTensor s, VTensor t => r <- tensor_add s t ;; Ok (VTensor r)
  | VTensor s, VFloat y => Ok (VTensor (tmap (fun x => x + y) s))
  | VFloat x, VTensor t => Ok (VTensor (tmap (fun y => x + y) t))
  | VFloat x, VFloat y => Ok (VFloat (x + y))
  | VTuple l1, VTuple l2 => Ok (VTuple (l1 ++ l2))
  | VTuple _, _ | _, VTuple _ => Raise TypeError
  end.

(** [z += v] for a tensor [z]: the result keeps the shape of [z]. *)
Definition py_iadd (z : Tensor) (v : value) : result Tensor :=
  match v with
  | VTensor t =>
      r <- tensor_add z t ;;
      if list_eq_dec Nat.eq_dec (shape r) (shape z) then Ok r
      else Raise RuntimeError
  | VFloat y => Ok (tmap (fun x => x + y) z)
  | VTuple _ => Raise TypeError
  end.

(** [x[:, n:]] and [x[:, :n]]. *)
Definition channels_from (x : Tensor) (n : nat) : Tensor :=
  {| shape := match shape x with
              | b :: c :: rest => b :: (c - n)%nat :: rest
              | sh => sh
              end;
     item := fun idx => match idx with
                        | b :: c :: rest => item x (b :: (c + n)%nat :: rest)
                        | _ => 0
                        end |}.

Definition channels_upto (x : Tensor) (n : nat) : Tensor :=
  {| shape := match shape x with
              | b :: c :: rest => b :: Nat.min c n :: rest
              | sh => sh
              end;
     item := item x |}.

(** [t[:, k, :, :]] for a Python index [k]: a negative index counts from
    the end, an index outside the dimension raises. *)
Definition select_channel (t : Tensor) (k : Z) : result Tensor :=
  match shape t with
  | [b; c; h; w] =>
      let k' := if (k <? 0)%Z then (k + Z.of_nat c)%Z else k in
      if ((0 <=? k') && (k' <? Z.of_nat c))%Z
      then Ok {| shape := [b; h; w];
                 item := fun idx =>
                   match idx with
                   | i :: rest => item t (i :: Z.to_nat k' :: rest)
                   | [] => 0
                   end |}
      else Raise IndexError
  | _ => Raise IndexError
  end.

(** ** [class Paradis] *)

Record Paradis : Type := {
  num_common_features : nat;
  model_variational : bool;
  num_dynamic_channels : nat;
  num_substeps : Z;
  dt : R;
  input_proj : Tensor -> Tensor;
  advection : NeuralSemiLagrangian;
  diffusion_reaction : value -> result value;
  output_proj : Tensor -> Tensor
}.

Definition SYNOPTIC_TIME_SCALE : R := 7.29212e5.

(** What [__init__] reads from the data module and the configuration. *)
Record Config : Type := {
  num_out_features : nat;
  mesh_size : nat * nat;
  cfg_num_common_features : nat;
  ensemble_enable : bool;
  num_dyn_input_features : nat;
  num_forcings : nat;
  num_in_features : nat;
  hidden_multiplier : nat;
  cfg_num_substeps : Z;
  base_dt : R
}.

(** The diffusion-reaction layer (a [CLP]) and the output projection (a
    padding followed by [Conv2d]) are built from classes outside the
    source: they are parameters.  What the diffusion-reaction layer does
    with a value that is not a tensor is left open, so it takes any value
    and may raise. *)
Record Layers : Type := {
  build_diffusion_reaction : nat -> nat * nat -> value -> result value;
  build_output_proj : nat -> nat -> Tensor -> Tensor
}.

(** [Paradis.__init__]; the division by [num_substeps] is a division of
    Python numbers and raises on zero. *)
Definition Paradis_init (lib : Collaborators) (layers : Layers) (cfg : Config)
  : result Paradis :=
  let variational := ensemble_enable cfg in
  let num_dynamic_channels :=
    (num_dyn_input_features cfg + num_forcings cfg)%nat in
  let hidden_dim := (hidden_multiplier cfg * num_dynamic_channels)%nat in
  dt <- (if (cfg_num_substeps cfg =? 0)%Z then Raise ZeroDivisionError
         else Ok (base_dt cfg / SYNOPTIC_TIME_SCALE
                  / IZR (cfg_num_substeps cfg))) ;;
  Ok {| num_common_features := cfg_num_common_features cfg;
        model_variational := variational;
        num_dynamic_channels := num_dynamic_channels;
        num_substeps := cfg_num_substeps cfg;
        dt := dt;
        input_proj := CLP lib (num_in_features cfg) hidden_dim (mesh_size cfg);
        advection :=
          NeuralSemiLagrangian_init lib hidden_dim (mesh_size cfg) variational;
        diffusion_reaction :=
          build_diffusion_reaction layers hidden_dim (mesh_size cfg);
        output_proj :=
          build_output_proj layers hidden_dim (num_out_features cfg) |}.

(** Lines 221-224. *)
Definition extract_grids (p : Paradis) (x : Tensor)
  : result (Tensor * Tensor) :=
  let x_static := channels_from x (num_dynamic_channels p) in
  lat_grid <- select_channel x_static (-2) ;;
  lon_grid <- select_channel x_static (-1) ;;
  Ok (lat_grid, lon_grid).

(** Lines 235-241: one pass through the loop body. *)
Definition substep (p : Paradis) (lat_grid lon_grid z : Tensor)
  : result Tensor :=
  z_adv <- forward (advection p) z lat_grid lon_grid (dt p) ;;
  dz <- diffusion_reaction p z_adv ;;
  scaled <- py_float_mul (dt p) dz ;;
  increment <- py_add z_adv scaled ;;
  py_iadd z increment.

(** [for i in range(n)]. *)
Fixpoint substeps (p : Paradis) (lat_grid lon_grid : Tensor) (n : nat)
    (z : Tensor) : result Tensor :=
  match n with
  | O => Ok z
  | S n' =>
      z <- substep p lat_grid lon_grid z ;;
      substeps p lat_grid lon_grid n' z
  end.

(** Lines 226-244, with the grids already extracted. *)
Definition run_substeps (p : Paradis) (x lat_grid lon_grid : Tensor)
  : result Tensor :=
  let z := input_proj p x in
  let z0 := z in
  z <- substeps p lat_grid lon_grid (Z.to_nat (num_substeps p)) z ;;
  residual <- tensor_sub z z0 ;;
  tensor_add (channels_upto x (num_common_features p))
             (output_proj p residual).

Definition Paradis_forward (p : Paradis) (x : Tensor) : result Tensor :=
  '(lat_grid, lon_grid) <- extract_grids p x ;;
  run_substeps p x lat_grid lon_grid.

(** ** Grids and fields of the worked examples

    One batch element and one channel; the latitude grid repeats a list of
    latitudes along the rows, the longitude grid a list of longitudes along
    the columns, and a zonal field depends on the longitude index only. *)

Definition lat_grid_of (lats : list R) (W : nat) : Tensor :=
  {| shape := [1%nat; length lats; W];
     item := fun idx => match idx with
                        | [_; i; _] => nth i lats 0
                        | _ => 0
                        end |}.

Definition lon_grid_of (H : nat) (lons : list R) : Tensor :=
  {| shape := [1%nat; H; length lons];
     item := fun idx => match idx with
                        | [_; _; j] => nth j lons 0
                        | _ => 0
                        end |}.

Definition zonal_field (H : nat) (vals : list R) : Tensor :=
  {| shape := [1%nat; 1%nat; H; length vals];
     item := fun idx => match idx with
                        | [_; _; _; j] => nth j vals 0
                        | _ => 0
                        end |}.


(** Three latitudes and three longitudes, evenly spaced. *)
Definition lat3 : Tensor := lat_grid_of [- (PI / 4); 0; PI / 4] 3.
Definition lon3 : Tensor := lon_grid_of 3 [0; 2 * PI / 3; 4 * PI / 3].

(** The advection layer with one channel on that mesh, all weights zero. *)
Definition still3 : NeuralSemiLagrangian :=
  NeuralSemiLagrangian_init still_air 1 (3%nat, 3%nat) false.

(** Layers that return their input, and a configuration with one dynamic
    channel, the two grid channels as constants, and one sub-step. *)
Definition identity_layers : Layers :=
  {| build_diffusion_reaction := fun _ _ v => Ok v;
     build_output_proj := fun _ _ t => t |}.

Definition example_config (variational : bool) : Config :=
  {| num_out_features := 1;
     mesh_size := (3%nat, 3%nat);
     cfg_num_common_features := 1;
     ensemble_enable := variational;
     num_dyn_input_features := 1;
     num_forcings := 0;
     num_in_features := 3;
     hidden_multiplier := 1;
     cfg_num_substeps := 1;
     base_dt := 3600 |}.

(** The model [__init__] builds from that configuration, and an input
    whose channels are a zonal field, the latitudes and the longitudes of
    the three-by-three grid. *)
Definition example_model (variational : bool) : Paradis :=
  {| num_common_features := 1;
     model_variational := variational;
     num_dynamic_channels := 1;
     num_substeps := 1;
     dt := 3600 / SYNOPTIC_TIME_SCALE / 1;
     input_proj := CLP still_air 3 1 (3%nat, 3%nat);
     advection :=
       NeuralSemiLagrangian_init still_air 1 (3%nat, 3%nat) variational;
     diffusion_reaction := fun v => Ok v;
     output_proj := fun t => t |}.

Definition example_input (vals : list R) : Tensor :=
  {| shape := [1; 3; 3; 3]%nat;
     item := fun idx =>
       match idx with
       | [b; c; i; j] =>
           match c with
           | O => nth j vals 0
           | S O => item lat3 [b; i; j]
           | _ => item lon3 [b; i; j]
           end
       | _ => 0
       end |}.

(** The grid of the end-to-end scenario: latitudes -67.5, -22.5, 22.5 and
    67.5 degrees, longitudes 0, 45, ..., 315 degrees, in radians. *)
Definition lat4 : Tensor :=
  lat_grid_of [- (3 * PI / 8); - (PI / 8); PI / 8; 3 * PI / 8] 8.

Definition lon8 : Tensor :=
  lon_grid_of 4 [0; PI / 4; 2 * PI / 4; 3 * PI / 4;
                 4 * PI / 4; 5 * PI / 4; 6 * PI / 4; 7 * PI / 4].

(** * Properties *)

(** ** Scalar facts *)

Lemma remainder_range (a b : R) :
  0 < b -> 0 <= Torch.remainder a b < b.
Proof.
  intros Hb. unfold Torch.remainder.
  pose proof (Zfloor_bound (a / b)) as [Hlo Hhi].
  assert (Ha : a = (a / b) * b) by (field; lra).
  split.
  - apply Rmult_le_compat_r with (r := b) in Hlo; lra.
  - apply Rmult_lt_compat_r with (r := b) in Hhi; lra.
Qed.

Lemma clamp_range (x lo hi : R) :
  lo <= hi -> lo <= Torch.clamp x lo hi <= hi.
Proof.
  intros Hle. unfold Torch.clamp, Rmin, Rmax.
  repeat destruct Rle_dec; lra.
Qed.

Ltac torch_cases :=
  unfold Torch.where_, Torch.ltb, Torch.leb in *;
  repeat (destruct Rlt_dec; simpl in * );
  repeat (destruct Rle_dec; simpl in * ).

(** ** The coordinate transform *)

(** C6: the transform is a total function of four reals; the value handed
    to arcsin lies in [-1+1e-7, 1-1e-7], the returned latitude is strictly
    between -pi/2 and pi/2, and the returned longitude is in [0, 2 pi). *)
Theorem transform_to_latlon_total_and_bounded
    (lat_prime lon_prime lat_p lon_p : R) :
  exists lat lon,
    transform_to_latlon lat_prime lon_prime lat_p lon_p = (lat, lon)
    /\ lat = asin (clamped_sin_lat lat_prime lon_prime lat_p)
    /\ -1 + 1e-7 <= clamped_sin_lat lat_prime lon_prime lat_p <= 1 - 1e-7
    /\ - (PI / 2) < lat < PI / 2
    /\ 0 <= lon < 2 * PI.
Proof.
  eexists; eexists. split; [reflexivity|].
  assert (Hc : -1 + 1e-7 <= clamped_sin_lat lat_prime lon_prime lat_p
               <= 1 - 1e-7)
    by (apply clamp_range; lra).
  split; [reflexivity|]. split; [exact Hc|]. split.
  - apply asin_bound_lt. lra.
  - apply remainder_range. pose proof PI_RGT_0. lra.
Qed.

(** ** The grid mapping on real entries *)

Lemma wrap_longitude_range (x : R) : -1 <= wrap_longitude x < 1.
Proof.
  unfold wrap_longitude; simpl.
  pose proof (remainder_range (x + 1) 2 ltac:(lra)). lra.
Qed.

Lemma geocyclic_roll_range (x y : R) :
  -1 <= x < 1 -> -1 <= geocyclic_roll x y <= 1.
Proof.
  intros Hx. unfold geocyclic_roll; simpl.
  torch_cases; lra.
Qed.

Lemma geocyclic_roll_inside (x y : R) :
  Rabs y <= 1 -> geocyclic_roll x y = x.
Proof.
  intros Hy. unfold geocyclic_roll; simpl.
  torch_cases; try lra; reflexivity.
Qed.

Lemma mirror_latitude_cases (y : R) :
  (y < -3 /\ mirror_latitude y = 4 + y)
  \/ (-3 <= y < -1 /\ mirror_latitude y = - (2 + y))
  \/ (-1 <= y <= 1 /\ mirror_latitude y = y)
  \/ (1 < y /\ mirror_latitude y = 2 - y).
Proof.
  unfold mirror_latitude; simpl.
  destruct (Rlt_dec y (-3)); [left|right].
  { torch_cases; split; lra. }
  destruct (Rlt_dec y (-1)); [left|right].
  { torch_cases; split; lra. }
  destruct (Rle_dec y 1); [left|right].
  { torch_cases; split; lra. }
  torch_cases; split; lra.
Qed.

Lemma mirror_latitude_range_iff (y : R) :
  -1 <= mirror_latitude y <= 1 <-> -5 <= y <= 3.
Proof.
  destruct (mirror_latitude_cases y)
    as [[Hy E] | [[Hy E] | [[Hy E] | [Hy E]]]]; rewrite E; lra.
Qed.

Lemma rescale_range_iff (dep lo hi a b : R) :
  lo < hi ->
  (a <= rescale dep lo hi <= b
   <-> lo + (a + 1) / 2 * (hi - lo) <= dep <= lo + (b + 1) / 2 * (hi - lo)).
Proof.
  intros Hlt. unfold rescale; simpl.
  assert (Hd : 0 < hi - lo) by lra.
  assert (E : 2 * (dep - lo) / (hi - lo) - 1
              = 2 * ((dep - lo) / (hi - lo)) - 1) by (field; lra).
  rewrite E. set (q := (dep - lo) / (hi - lo)).
  assert (Hq : dep = lo + q * (hi - lo)) by (unfold q; field; lra).
  split; intros [H1 H2].
  - split; rewrite Hq at 1; nra.
  - rewrite Hq in H1, H2. split; nra.
Qed.

(** C2, as the code has it: for grid extrema with min < max, grid_x always
    lies in [-1, 1]; grid_y lies in [-1, 1] exactly when the departure
    latitude is at most two domain heights below min_lat and at most one
    domain height above max_lat (the mirror is applied once per side). *)
Theorem grid_mapping_range
    (lat_dep lon_dep min_lat max_lat min_lon max_lon : R) :
  min_lat < max_lat ->
  min_lon < max_lon ->
  let g := grid_mapping lat_dep lon_dep min_lat max_lat min_lon max_lon in
  -1 <= fst g <= 1
  /\ (-1 <= snd g <= 1
      <-> min_lat - 2 * (max_lat - min_lat) <= lat_dep
          <= max_lat + (max_lat - min_lat)).
Proof.
  intros Hlat Hlon g. subst g. unfold grid_mapping. cbn [fst snd]. split.
  - apply geocyclic_roll_range, wrap_longitude_range.
  - rewrite mirror_latitude_range_iff.
    rewrite (rescale_range_iff lat_dep min_lat max_lat (-5) 3 Hlat).
    lra.
Qed.

Lemma grid_mapping_range_witness :
  let g := grid_mapping 1 0 (-1/4) (1/4) 0 1 in
  -1 <= fst g <= 1
  /\ (-1 <= snd g <= 1 <-> -1/4 - 2 * (1/4 - -1/4) <= 1 <= 1/4 + (1/4 - -1/4)).
Proof.
  apply (grid_mapping_range 1 0 (-1/4) (1/4) 0 1); lra.
Defined.

(** C2 as stated fails: with latitudes spanning [-1/4, 1/4] rad, the
    departure latitude 1 rad is mapped to grid_y = -2. *)
Lemma grid_mapping_out_of_range :
  -1/4 < 1/4 /\ 0 < 1
  /\ snd (grid_mapping 1 0 (-1/4) (1/4) 0 1) = -2
  /\ ~ (-1 <= snd (grid_mapping 1 0 (-1/4) (1/4) 0 1) <= 1).
Proof.
  assert (E : snd (grid_mapping 1 0 (-1/4) (1/4) 0 1) = -2).
  { unfold grid_mapping, mirror_latitude, rescale; cbn [fst snd]; simpl.
    torch_cases; lra. }
  rewrite E. repeat split; lra.
Qed.

(** From -3 upwards the two mirror assignments in sequence are the case
    split on the unmirrored value. *)
Lemma mirror_latitude_piecewise (y : R) :
  -3 <= y ->
  mirror_latitude y
  = if Rlt_dec y (-1) then - (2 + y)
    else if Rlt_dec 1 y then 2 - y else y.
Proof.
  intros Hy.
  destruct (mirror_latitude_cases y)
    as [[H1 E] | [[H1 E] | [[H1 E] | [H1 E]]]]; rewrite E;
    repeat destruct Rlt_dec; lra.
Qed.

(** C4, as the code has it: for a grid with min < max the source's grid
    mapping is the composition the specification describes, in that order
    (rescale; grid_x = ((grid_x+1) mod 2) - 1; exactly when |grid_y| > 1,
    grid_x + 1 if grid_x <= 0 and grid_x - 1 if grid_x > 0, with grid_y
    not yet mirrored and grid_x as wrapped, otherwise grid_x unchanged;
    then the mirror), except that the mirror is two assignments in
    sequence: a rescaled grid_y below -3 is reflected by the first and
    again by the second, and becomes 4 + grid_y.  The two mappings agree
    exactly from a rescaled grid_y of -3 upwards. *)
Theorem grid_mapping_matches_spec
    (lat_dep lon_dep min_lat max_lat min_lon max_lon : R) :
  min_lat < max_lat ->
  min_lon < max_lon ->
  let y0 := rescale lat_dep min_lat max_lat in
  let g := grid_mapping lat_dep lon_dep min_lat max_lat min_lon max_lon in
  let s := spec_grid_mapping lat_dep lon_dep min_lat max_lat min_lon max_lon in
  fst g = fst s
  /\ snd g = (if Rlt_dec y0 (-3) then 4 + y0 else snd s)
  /\ (g = s <-> -3 <= y0).
Proof.
  intros _ _ y0 g s.
  assert (Hx : fst g = fst s).
  { subst g s. unfold grid_mapping, spec_grid_mapping, geocyclic_roll,
      wrap_longitude, rescale, Torch.remainder; simpl.
    torch_cases; try reflexivity; try lra. }
  assert (Hs : snd s = if Rlt_dec y0 (-1) then - (2 + y0)
                       else if Rlt_dec 1 y0 then 2 - y0 else y0)
    by reflexivity.
  assert (Hg : snd g = mirror_latitude y0) by reflexivity.
  assert (Hy : snd g = if Rlt_dec y0 (-3) then 4 + y0 else snd s).
  { rewrite Hg, Hs.
    destruct (mirror_latitude_cases y0)
      as [[H1 E] | [[H1 E] | [[H1 E] | [H1 E]]]]; rewrite E;
      repeat destruct Rlt_dec; lra. }
  split; [exact Hx|]. split; [exact Hy|]. split.
  - intros E. apply (f_equal snd) in E. rewrite Hy, Hs in E.
    destruct (Rlt_dec y0 (-3)) as [Hlt|Hge]; [|lra].
    repeat destruct Rlt_dec; lra.
  - intros Hge. rewrite (surjective_pairing g), (surjective_pairing s).
    rewrite Hx, Hy. destruct (Rlt_dec y0 (-3)); [lra | reflexivity].
Qed.

Lemma grid_mapping_matches_spec_witness :
  let y0 := rescale (-3 / 2) 0 1 in
  let g := grid_mapping (-3 / 2) 0 0 1 0 1 in
  let s := spec_grid_mapping (-3 / 2) 0 0 1 0 1 in
  fst g = fst s
  /\ snd g = (if Rlt_dec y0 (-3) then 4 + y0 else snd s)
  /\ (g = s <-> -3 <= y0).
Proof.
  apply (grid_mapping_matches_spec (-3 / 2) 0 0 1 0 1); lra.
Defined.

(** C4 as stated fails: with latitudes spanning [0, 1] rad, the departure
    latitude -3/2 rad is rescaled to grid_y = -4; the case split of the
    claim gives -(2 + grid_y) = 2, the two assignments of the source give
    2 - 2 = 0. *)
Lemma mirror_is_not_the_case_split :
  0 < 1
  /\ rescale (-3 / 2) 0 1 = -4
  /\ snd (grid_mapping (-3 / 2) 0 0 1 0 1) = 0
  /\ snd (spec_grid_mapping (-3 / 2) 0 0 1 0 1) = 2
  /\ grid_mapping (-3 / 2) 0 0 1 0 1 <> spec_grid_mapping (-3 / 2) 0 0 1 0 1.
Proof.
  assert (E0 : rescale (-3 / 2) 0 1 = -4) by (unfold rescale; simpl; lra).
  assert (Eg : snd (grid_mapping (-3 / 2) 0 0 1 0 1) = 0).
  { unfold grid_mapping. cbn [snd]. rewrite E0.
    destruct (mirror_latitude_cases (-4))
      as [[H1 E] | [[H1 E] | [[H1 E] | [H1 E]]]]; rewrite E; lra. }
  assert (Es : snd (spec_grid_mapping (-3 / 2) 0 0 1 0 1) = 2).
  { unfold spec_grid_mapping. cbn [snd].
    repeat destruct Rlt_dec; lra. }
  split; [lra|]. split; [exact E0|]. split; [exact Eg|]. split; [exact Es|].
  intros E. apply (f_equal snd) in E. rewrite Eg, Es in E. lra.
Qed.

(** ** The grid mapping on a degenerate grid, with IEEE special values *)

Lemma rescale_degenerate (dep : ieee) (lo hi : Q) :
  (lo == hi)%Q -> IEEE.is_finite (rescale dep (Fin lo) (Fin hi)) = false.
Proof.
  intros E. unfold rescale; simpl.
  assert (Hz : Qeq_bool (hi + - lo) 0 = true)
    by (apply Qeq_bool_iff; rewrite E; ring).
  destruct dep as [d | | |]; simpl.
  - rewrite Hz. unfold IEEE.signed_inf.
    destruct (Qcompare _ 0); reflexivity.
  - destruct (Qle_bool 0 (hi + - lo)); reflexivity.
  - destruct (Qle_bool 0 (hi + - lo)); reflexivity.
  - reflexivity.
Qed.

Lemma wrap_longitude_not_finite (x : ieee) :
  IEEE.is_finite x = false -> wrap_longitude x = NaN.
Proof. destruct x; simpl; intros E; try discriminate; reflexivity. Qed.

Lemma geocyclic_roll_nan (y : ieee) : geocyclic_roll NaN y = NaN.
Proof.
  unfold geocyclic_roll; simpl.
  rewrite !andb_false_r. reflexivity.
Qed.

Lemma mirror_latitude_not_finite (y : ieee) :
  IEEE.is_finite y = false -> IEEE.is_finite (mirror_latitude y) = false.
Proof. destruct y; simpl; intros E; try discriminate; reflexivity. Qed.

Lemma reduce_min_nonempty {T : Type} `{Scalar T} (l : list T) :
  l <> [] -> exists m, reduce_min l = Ok m.
Proof. destruct l; [congruence | eexists; reflexivity]. Qed.

Lemma reduce_max_nonempty {T : Type} `{Scalar T} (l : list T) :
  l <> [] -> exists m, reduce_max l = Ok m.
Proof. destruct l; [congruence | eexists; reflexivity]. Qed.

(** C8, as the code has it: on non-empty grids the grid mapping returns
    without raising; when the longitude extrema are equal the zero divisor
    makes grid_x NaN, and when the latitude extrema are equal grid_y is not
    finite.  Nothing validates the grid and no error is surfaced. *)
Theorem degenerate_grid_gives_non_finite_coordinates
    (lat_grid lon_grid : list ieee) (lat_dep lon_dep : ieee) :
  lat_grid <> [] ->
  lon_grid <> [] ->
  exists gx gy,
    normalized_grid lat_grid lon_grid lat_dep lon_dep = Ok (gx, gy)
    /\ (degenerate lon_grid -> gx = NaN)
    /\ (degenerate lat_grid -> IEEE.is_finite gy = false).
Proof.
  intros Hlat Hlon.
  destruct (reduce_min_nonempty lat_grid Hlat) as [min_lat Emin_lat].
  destruct (reduce_max_nonempty lat_grid Hlat) as [max_lat Emax_lat].
  destruct (reduce_min_nonempty lon_grid Hlon) as [min_lon Emin_lon].
  destruct (reduce_max_nonempty lon_grid Hlon) as [max_lon Emax_lon].
  unfold normalized_grid.
  rewrite Emin_lat, Emax_lat, Emin_lon, Emax_lon. cbn [bind].
  unfold grid_mapping. eexists; eexists. split; [reflexivity|]. split.
  - intros (lo & hi & E1 & E2 & E).
    rewrite Emin_lon in E1; rewrite Emax_lon in E2.
    injection E1 as ->; injection E2 as ->.
    rewrite (wrap_longitude_not_finite _ (rescale_degenerate lon_dep lo hi E)).
    apply geocyclic_roll_nan.
  - intros (lo & hi & E1 & E2 & E).
    rewrite Emin_lat in E1; rewrite Emax_lat in E2.
    injection E1 as ->; injection E2 as ->.
    apply mirror_latitude_not_finite, rescale_degenerate, E.
Qed.

Lemma degenerate_grid_gives_non_finite_coordinates_witness :
  exists gx gy,
    normalized_grid [Fin (-1 # 2)%Q; Fin (1 # 2)%Q] [Fin 0; Fin 0]
                    (Fin (1 # 4)%Q) (Fin 1)
    = Ok (gx, gy)
    /\ (degenerate [Fin 0; Fin 0] -> gx = NaN)
    /\ (degenerate [Fin (-1 # 2)%Q; Fin (1 # 2)%Q] -> IEEE.is_finite gy = false).
Proof.
  apply (degenerate_grid_gives_non_finite_coordinates
           [Fin (-1 # 2)%Q; Fin (1 # 2)%Q] [Fin 0; Fin 0] (Fin (1 # 4)%Q) (Fin 1));
    discriminate.
Defined.

(** C8 as stated fails: on a grid with a single longitude (max_lon =
    min_lon) the mapping does not raise; it returns grid_x = NaN. *)
Lemma degenerate_grid_does_not_raise :
  degenerate [Fin 0; Fin 0]
  /\ (exists gy,
        normalized_grid [Fin (-1 # 2)%Q; Fin (1 # 2)%Q] [Fin 0; Fin 0]
                        (Fin (1 # 4)%Q) (Fin 1)
        = Ok (NaN, gy))
  /\ ~ raises (normalized_grid [Fin (-1 # 2)%Q; Fin (1 # 2)%Q] [Fin 0; Fin 0]
                               (Fin (1 # 4)%Q) (Fin 1)).
Proof.
  split; [|split].
  - exists 0%Q, 0%Q. repeat split; reflexivity.
  - eexists. vm_compute. reflexivity.
  - intros [e He]. vm_compute in He. discriminate.
Qed.

(** ** Tensor layout *)

Lemma in_range_numel_pos (sh idx : list nat) :
  in_range sh idx -> (0 < numel sh)%nat.
Proof.
  revert idx. induction sh as [|d sh IH]; intros [|i idx]; simpl;
    try tauto; try lia.
  intros [Hi Hr]. specialize (IH _ Hr). nia.
Qed.

Lemma ravel_lt (sh idx : list nat) :
  in_range sh idx -> (ravel sh idx < numel sh)%nat.
Proof.
  revert idx. induction sh as [|d sh IH]; intros [|i idx]; simpl;
    try tauto; try lia.
  intros [Hi Hr]. specialize (IH _ Hr). nia.
Qed.

Lemma unravel_ravel (sh idx : list nat) :
  in_range sh idx -> unravel sh (ravel sh idx) = idx.
Proof.
  revert idx. induction sh as [|d sh IH]; intros [|i idx]; simpl;
    try tauto.
  intros [Hi Hr]. pose proof (ravel_lt _ _ Hr) as Hlt.
  assert (Hn : numel sh <> 0%nat) by lia.
  f_equal.
  - rewrite Nat.div_add_l by exact Hn.
    rewrite Nat.div_small by exact Hlt. lia.
  - rewrite Nat.add_comm, Nat.Div0.mod_add.
    rewrite Nat.mod_small by exact Hlt. apply IH, Hr.
Qed.

Lemma bidx_in_range (sh idx : list nat) :
  in_range sh idx -> bidx sh idx = idx.
Proof.
  revert idx. induction sh as [|d sh IH]; intros [|i idx]; simpl;
    try tauto.
  intros [Hi Hr]. rewrite (IH _ Hr).
  destruct (Nat.eqb_spec d 1); [f_equal; lia | reflexivity].
Qed.

Lemma broadcast_same (sh : list nat) : broadcast sh sh = Ok sh.
Proof.
  induction sh as [|d sh IH]; simpl; [reflexivity|].
  rewrite IH. simpl. rewrite Nat.eqb_refl. reflexivity.
Qed.

Lemma view_ok (t : Tensor) (sh : list nat) :
  numel (shape t) = numel sh ->
  view t sh
  = Ok {| shape := sh;
          item := fun idx => item t (unravel (shape t) (ravel sh idx)) |}.
Proof.
  intros E. unfold view. rewrite E, Nat.eqb_refl. reflexivity.
Qed.

(** ** The velocity channels *)

Lemma split_velocities_spec
    (C B H W : nat) (velocities : Tensor) :
  shape velocities = [B; (2 * C)%nat; H; W] ->
  exists u v,
    split_velocities C B velocities = Ok (u, v)
    /\ shape u = [B; C; H; W]
    /\ shape v = [B; C; H; W]
    /\ forall b c i j,
         (b < B)%nat -> (c < C)%nat -> (i < H)%nat -> (j < W)%nat ->
         item u [b; c; i; j] = item velocities [b; c; i; j]
         /\ item v [b; c; i; j] = item velocities [b; (C + c)%nat; i; j].
Proof.
  intros Hsh. unfold split_velocities.
  rewrite view_ok; rewrite Hsh.
  2:{ cbn [last2 length skipn Nat.sub numel]. lia. }
  cbn [bind last2 length skipn Nat.sub].
  eexists; eexists. split; [reflexivity|].
  split; [reflexivity|]. split; [reflexivity|].
  intros b c i j Hb Hc Hi Hj. cbn [select1 item].
  split.
  - replace (ravel [B; 2%nat; C; H; W] [b; 0%nat; c; i; j])
      with (ravel [B; (2 * C)%nat; H; W] [b; c; i; j])
      by (cbn [ravel numel]; lia).
    rewrite unravel_ravel; [reflexivity|].
    cbn [in_range]. repeat split; lia.
  - replace (ravel [B; 2%nat; C; H; W] [b; 1%nat; c; i; j])
      with (ravel [B; (2 * C)%nat; H; W] [b; (C + c)%nat; i; j])
      by (cbn [ravel numel]; lia).
    rewrite unravel_ravel; [reflexivity|].
    cbn [in_range]. repeat split; lia.
Qed.

Lemma still_air_interfaces : interfaces still_air.
Proof.
  constructor.
  - intros c_in c_out mesh x B H W E. simpl.
    unfold zero_predictor. rewrite E. reflexivity.
  - intros c_in c_out mesh x B H W E. simpl.
    unfold zero_predictor. rewrite E. reflexivity.
  - intros halo x B C H W E. simpl.
    unfold geocyclic_padding. rewrite E. reflexivity.
Qed.


Lemma call_velocity_net_init
    (lib : Collaborators) (Hlib : interfaces lib)
    (C : nat) (mesh : nat * nat) (variational : bool)
    (x : Tensor) (B H W : nat) :
  shape x = [B; C; H; W] ->
  exists velocities kl_loss,
    call_velocity_net (NeuralSemiLagrangian_init lib C mesh variational) x
    = Ok (velocities, kl_loss)
    /\ shape velocities = [B; (2 * C)%nat; H; W].
Proof.
  intros E. unfold call_velocity_net, NeuralSemiLagrangian_init.
  revert variational. intros [|]; cbn [negb variational velocity_net].
  - destruct (VariationalCLP lib C (2 * C) mesh x) as [vel kl] eqn:Ev.
    exists vel, kl. split; [reflexivity|].
    pose proof (VariationalCLP_shape lib Hlib C (2 * C)%nat mesh x B H W E)
      as Hs.
    rewrite Ev in Hs. exact Hs.
  - eexists; eexists. split; [reflexivity|].
    apply (CLP_shape lib Hlib); exact E.
Qed.

Lemma split_velocities_channels
    (C B K H W : nat) (velocities : Tensor) :
  shape velocities = [B; K; H; W] ->
  (0 < B)%nat -> (0 < H)%nat -> (0 < W)%nat ->
  returns (split_velocities C B velocities) -> K = (2 * C)%nat.
Proof.
  intros Hs HB HH HW [uv E]. unfold split_velocities, view in E.
  rewrite Hs in E. cbn [last2 length skipn Nat.sub] in E.
  destruct (Nat.eqb_spec (numel [B; K; H; W]) (numel [B; 2%nat; C; H; W]))
    as [En | _]; [| discriminate E].
  cbn [numel] in En. rewrite !Nat.mul_1_r in En.
  apply Nat.mul_cancel_l in En; [| lia].
  replace (2 * (C * (H * W)))%nat with ((2 * C) * (H * W))%nat in En by lia.
  apply Nat.mul_cancel_r in En; [exact En | nia].
Qed.

(** ** The advection step, position by position *)

Ltac invert_bind H :=
  match type of H with
  | bind ?c _ = Ok _ =>
      let E := fresh "E" in
      destruct c eqn:E; cbn [bind] in H; [| discriminate H]
  end.

Lemma sampling_grid_spec
    (C B H W : nat) (u v lat_grid lon_grid : Tensor) (dt : R)
    (min_lat max_lat min_lon max_lon : R) :
  shape u = [B; C; H; W] ->
  shape v = [B; C; H; W] ->
  shape lat_grid = [B; H; W] ->
  shape lon_grid = [B; H; W] ->
  expanded_extrema lat_grid C = Ok (min_lat, max_lat) ->
  expanded_extrema lon_grid C = Ok (min_lon, max_lon) ->
  exists grid_x grid_y,
    sampling_grid C u v lat_grid lon_grid dt = Ok (grid_x, grid_y)
    /\ shape grid_x = [B; C; H; W]
    /\ shape grid_y = [B; C; H; W]
    /\ forall b c i j,
         (b < B)%nat -> (c < C)%nat -> (i < H)%nat -> (j < W)%nat ->
         (item grid_x [b; c; i; j], item grid_y [b; c; i; j])
         = sampling_coordinate dt (item u [b; c; i; j]) (item v [b; c; i; j])
             (item lat_grid [b; i; j]) (item lon_grid [b; i; j])
             min_lat max_lat min_lon max_lon.
Proof.
  intros Hu Hv Hlat Hlon Elat Elon.
  unfold expanded_extrema, unsqueeze_expand in Elat, Elon.
  rewrite Hlat in Elat. rewrite Hlon in Elon. cbn [bind] in Elat, Elon.
  invert_bind Elat. invert_bind Elat. injection Elat as -> ->.
  invert_bind Elon. invert_bind Elon. injection Elon as -> ->.
  unfold sampling_grid, unsqueeze_expand. rewrite Hlat, Hlon. cbn [bind].
  rewrite E, E0, E1, E2. cbn [bind].
  unfold pointwise.
  do 4 (cbn [tmap shape broadcast_all bind];
        rewrite ?Hu, ?Hv, ?broadcast_same).
  eexists; eexists. split; [reflexivity|].
  split; [reflexivity|]. split; [reflexivity|].
  intros b c i j Hb Hc Hi Hj.
  assert (Hr : in_range [B; C; H; W] [b; c; i; j])
    by (cbn [in_range]; repeat split; assumption).
  unfold bitem. cbn [item shape tmap]. rewrite Hu, Hv.
  rewrite !(bidx_in_range _ _ Hr).
  reflexivity.
Qed.

Lemma get_value_bounded_ext
    (pix1 pix2 : nat -> nat -> R) (H W : nat) (x y : Z) :
  (forall iy ix, (iy < H)%nat -> (ix < W)%nat -> pix1 iy ix = pix2 iy ix) ->
  GridSample.get_value_bounded pix1 H W x y
  = GridSample.get_value_bounded pix2 H W x y.
Proof.
  intros Hext. unfold GridSample.get_value_bounded.
  destruct (_ && _)%bool eqn:Hin; [|reflexivity].
  apply andb_prop in Hin as [Hin Hy2]. apply andb_prop in Hin as [Hin Hy1].
  apply andb_prop in Hin as [Hx1 Hx2].
  apply Hext; lia.
Qed.

Lemma bicubic_ext
    (pix1 pix2 : nat -> nat -> R) (H W : nat) (x y : R) :
  (forall iy ix, (iy < H)%nat -> (ix < W)%nat -> pix1 iy ix = pix2 iy ix) ->
  GridSample.bicubic pix1 H W x y = GridSample.bicubic pix2 H W x y.
Proof.
  intros Hext.
  assert (E : forall a b, GridSample.get_value_bounded pix1 H W a b
                          = GridSample.get_value_bounded pix2 H W a b)
    by (intros; apply get_value_bounded_ext, Hext).
  unfold GridSample.bicubic. cbv zeta. rewrite !E. reflexivity.
Qed.

Lemma forward_spec
    (m : NeuralSemiLagrangian)
    (hidden_features lat_grid lon_grid : Tensor) (dt : R)
    (B C H W Hp Wp : nat) (velocities kl_loss : Tensor)
    (min_lat max_lat min_lon max_lon : R) :
  hidden_dim m = C ->
  shape hidden_features = [B; C; H; W] ->
  shape lat_grid = [B; H; W] ->
  shape lon_grid = [B; H; W] ->
  call_velocity_net m hidden_features = Ok (velocities, kl_loss) ->
  shape velocities = [B; (2 * C)%nat; H; W] ->
  shape (padding_interp m hidden_features) = [B; C; Hp; Wp] ->
  expanded_extrema lat_grid C = Ok (min_lat, max_lat) ->
  expanded_extrema lon_grid C = Ok (min_lon, max_lon) ->
  exists out,
    forward m hidden_features lat_grid lon_grid dt
    = Ok (wrap_output m out kl_loss)
    /\ shape out = [B; C; H; W]
    /\ forall b c i j,
         (b < B)%nat -> (c < C)%nat -> (i < H)%nat -> (j < W)%nat ->
         item out [b; c; i; j]
         = let g := sampling_coordinate dt
                      (item velocities [b; c; i; j])
                      (item velocities [b; (C + c)%nat; i; j])
                      (item lat_grid [b; i; j]) (item lon_grid [b; i; j])
                      min_lat max_lat min_lon max_lon in
           GridSample.bicubic
             (fun y x => item (padding_interp m hidden_features) [b; c; y; x])
             Hp Wp
             (rescale_to_padded (fst g) W Wp)
             (rescale_to_padded (snd g) H Hp).
Proof.
  intros HC Hhf Hlat Hlon Hcall Hvel Hpad Elat Elon.
  destruct (split_velocities_spec C B H W velocities Hvel)
    as (u & v & Hsplit & Hu & Hv & Huv).
  destruct (sampling_grid_spec C B H W u v lat_grid lon_grid dt
              min_lat max_lat min_lon max_lon Hu Hv Hlat Hlon Elat Elon)
    as (gx & gy & Hgrid & Hgx & Hgy & Hg).
  unfold forward. rewrite Hhf, HC. cbn [nth].
  rewrite Hcall. cbn [bind]. rewrite Hsplit. cbn [bind].
  rewrite Hgrid. cbn [bind].
  rewrite Hgx, Hgy, Hpad. cbn [last2 length skipn Nat.sub].
  rewrite (view_ok gx) by (rewrite Hgx; cbn [numel]; lia).
  rewrite (view_ok gy) by (rewrite Hgy; cbn [numel]; lia).
  cbn [bind]. unfold stack_last. cbn [shape tmap].
  destruct (list_eq_dec Nat.eq_dec _ _) as [_|Hne]; [|congruence].
  cbn [bind].
  rewrite (view_ok (padding_interp m hidden_features))
    by (rewrite Hpad; cbn [numel]; lia).
  cbn [bind]. unfold GridSample.grid_sample. cbn [shape app].
  rewrite Nat.eqb_refl. cbn [bind shape last2 length skipn Nat.sub].
  rewrite view_ok by (cbn [shape numel]; lia).
  cbn [bind]. unfold wrap_output.
  eexists. split; [destruct (variational m); reflexivity|].
  split; [reflexivity|].
  intros b c i j Hb Hc Hi Hj.
  specialize (Hg b c i j Hb Hc Hi Hj).
  destruct (Huv b c i j Hb Hc Hi Hj) as [Eu Ev].
  rewrite Eu, Ev in Hg.
  cbn [item shape tmap].
  assert (HbC : (b * C + c < B * C)%nat) by nia.
  replace (ravel [B; C; H; W] [b; c; i; j])
    with (ravel [(B * C)%nat; 1%nat; H; W] [(b * C + c)%nat; 0%nat; i; j])
    by (cbn [ravel numel]; lia).
  rewrite unravel_ravel by (cbn [in_range]; repeat split; lia).
  cbn [last removelast].
  rewrite Hgx, Hgy.
  unfold size_last, size_last2. rewrite Hpad, Hhf. cbn [rev app nth].
  replace (ravel [(B * C)%nat; H; W] [(b * C + c)%nat; i; j])
    with (ravel [B; C; H; W] [b; c; i; j])
    by (cbn [ravel numel]; lia).
  rewrite unravel_ravel by (cbn [in_range]; repeat split; lia).
  apply (f_equal fst) in Hg as Hg1. apply (f_equal snd) in Hg as Hg2.
  cbn [fst snd] in Hg1, Hg2. rewrite Hg1, Hg2. cbv zeta.
  apply bicubic_ext. intros iy ix Hiy Hix.
  replace (ravel [(B * C)%nat; 1%nat; Hp; Wp] [(b * C + c)%nat; 0%nat; iy; ix])
    with (ravel [B; C; Hp; Wp] [b; c; iy; ix])
    by (cbn [ravel numel]; lia).
  rewrite unravel_ravel by (cbn [in_range]; repeat split; lia).
  reflexivity.
Qed.

(** ** Extrema of a grid *)

Lemma unravel_in_range (sh : list nat) (k : nat) :
  (k < numel sh)%nat -> in_range sh (unravel sh k).
Proof.
  revert k. induction sh as [|d sh IH]; intros k Hk; simpl in *; [exact I|].
  assert (Hn : (0 < numel sh)%nat) by nia.
  split.
  - apply Nat.Div0.div_lt_upper_bound. lia.
  - apply IH, Nat.mod_upper_bound. lia.
Qed.

Lemma in_entries (t : Tensor) (x : R) :
  In x (entries t) <->
  exists idx, in_range (shape t) idx /\ item t idx = x.
Proof.
  unfold entries. rewrite in_map_iff. split.
  - intros (k & E & Hk). apply in_seq in Hk.
    exists (unravel (shape t) k). split; [|exact E].
    apply unravel_in_range. lia.
  - intros (idx & Hr & E).
    exists (ravel (shape t) idx). split.
    + rewrite unravel_ravel by exact Hr. exact E.
    + apply in_seq. pose proof (ravel_lt _ _ Hr). lia.
Qed.

Lemma fold_left_Rmin_spec (l : list R) (x : R) :
  In (fold_left Rmin l x) (x :: l)
  /\ forall y, In y (x :: l) -> fold_left Rmin l x <= y.
Proof.
  revert x. induction l as [|a l IH]; intros x; simpl.
  - split; [now left | intros y [<- | []]; lra].
  - destruct (IH (Rmin x a)) as [Hin Hle]. split.
    + destruct Hin as [E | Hin]; [|now right; right].
      rewrite <- E. unfold Rmin. destruct Rle_dec; [now left | now right; left].
    + intros y Hy.
      assert (Hm : fold_left Rmin l (Rmin x a) <= Rmin x a)
        by (apply Hle; now left).
      destruct Hy as [<- | [<- | Hy]].
      * pose proof (Rmin_l x a). lra.
      * pose proof (Rmin_r x a). lra.
      * apply Hle. now right.
Qed.

Lemma fold_left_Rmax_spec (l : list R) (x : R) :
  In (fold_left Rmax l x) (x :: l)
  /\ forall y, In y (x :: l) -> y <= fold_left Rmax l x.
Proof.
  revert x. induction l as [|a l IH]; intros x; simpl.
  - split; [now left | intros y [<- | []]; lra].
  - destruct (IH (Rmax x a)) as [Hin Hle]. split.
    + destruct Hin as [E | Hin]; [|now right; right].
      rewrite <- E. unfold Rmax. destruct Rle_dec; [now right; left | now left].
    + intros y Hy.
      assert (Hm : Rmax x a <= fold_left Rmax l (Rmax x a))
        by (apply Hle; now left).
      destruct Hy as [<- | [<- | Hy]].
      * pose proof (Rmax_l x a). lra.
      * pose proof (Rmax_r x a). lra.
      * apply Hle. now right.
Qed.

Lemma reduce_min_entries (t : Tensor) (m : R) :
  (exists idx, in_range (shape t) idx /\ item t idx = m) ->
  (forall idx, in_range (shape t) idx -> m <= item t idx) ->
  reduce_min (entries t) = Ok m.
Proof.
  intros Hat Hlow. apply in_entries in Hat.
  destruct (entries t) as [|x l] eqn:E; [destruct Hat|].
  simpl. f_equal.
  destruct (fold_left_Rmin_spec l x) as [Hin Hle].
  specialize (Hle m Hat).
  rewrite <- E in Hin. apply in_entries in Hin as (idx & Hr & Hi).
  specialize (Hlow idx Hr).
  change (@fold_left R R s_min l x) with (fold_left Rmin l x).
  lra.
Qed.

Lemma reduce_max_entries (t : Tensor) (m : R) :
  (exists idx, in_range (shape t) idx /\ item t idx = m) ->
  (forall idx, in_range (shape t) idx -> item t idx <= m) ->
  reduce_max (entries t) = Ok m.
Proof.
  intros Hat Hup. apply in_entries in Hat.
  destruct (entries t) as [|x l] eqn:E; [destruct Hat|].
  simpl. f_equal.
  destruct (fold_left_Rmax_spec l x) as [Hin Hle].
  specialize (Hle m Hat).
  rewrite <- E in Hin. apply in_entries in Hin as (idx & Hr & Hi).
  specialize (Hup idx Hr).
  change (@fold_left R R s_max l x) with (fold_left Rmax l x).
  lra.
Qed.

Lemma expanded_extrema_spec
    (grid : Tensor) (C B H W : nat) (lo hi : R) :
  shape grid = [B; H; W] ->
  (0 < C)%nat ->
  (exists b i j, (b < B)%nat /\ (i < H)%nat /\ (j < W)%nat
                 /\ item grid [b; i; j] = lo) ->
  (exists b i j, (b < B)%nat /\ (i < H)%nat /\ (j < W)%nat
                 /\ item grid [b; i; j] = hi) ->
  (forall b i j, (b < B)%nat -> (i < H)%nat -> (j < W)%nat ->
                 lo <= item grid [b; i; j] <= hi) ->
  expanded_extrema grid C = Ok (lo, hi).
Proof.
  intros Hs HC (b1 & i1 & j1 & Hb1 & Hi1 & Hj1 & Elo)
    (b2 & i2 & j2 & Hb2 & Hi2 & Hj2 & Ehi) Hbnd.
  unfold expanded_extrema, unsqueeze_expand. rewrite Hs. cbn [bind].
  rewrite (reduce_min_entries _ lo); cbn [bind shape item].
  - rewrite (reduce_max_entries _ hi); cbn [bind shape item].
    + reflexivity.
    + exists [b2; 0%nat; i2; j2]. cbn [in_range]. repeat split; assumption.
    + intros [|b [|c [|i [|j [|]]]]]; cbn [in_range]; try tauto.
      intros (Hb & Hc & Hi & Hj & _). apply Hbnd; assumption.
  - exists [b1; 0%nat; i1; j1]. cbn [in_range]. repeat split; assumption.
  - intros [|b [|c [|i [|j [|]]]]]; cbn [in_range]; try tauto.
    intros (Hb & Hc & Hi & Hj & _). apply Hbnd; assumption.
Qed.

(** ** Zero displacement *)

Lemma remainder_eq (a b : R) (k : Z) :
  0 < b -> IZR k * b <= a < (IZR k + 1) * b ->
  Torch.remainder a b = a - b * IZR k.
Proof.
  intros Hb [Hlo Hhi]. unfold Torch.remainder.
  rewrite (Zfloor_eq k); [reflexivity|].
  assert (Hi : 0 < / b) by (apply Rinv_0_lt_compat; exact Hb).
  unfold Rdiv. split.
  - apply Rmult_le_compat_r with (r := / b) in Hlo; [|lra].
    rewrite Rmult_assoc, Rinv_r in Hlo; lra.
  - apply Rmult_lt_compat_r with (r := / b) in Hhi; [|lra].
    rewrite Rmult_assoc, Rinv_r in Hhi; lra.
Qed.

Lemma remainder_periodic (a b : R) :
  0 < b -> Torch.remainder (a + b) b = Torch.remainder a b.
Proof.
  intros Hb.
  pose proof (Zfloor_bound (a / b)) as [Hlo Hhi].
  assert (Ha : a = (a / b) * b) by (field; lra).
  rewrite (remainder_eq (a + b) b (Zfloor (a / b) + 1)); [| exact Hb |].
  - unfold Torch.remainder. rewrite plus_IZR. lra.
  - rewrite plus_IZR. split.
    + apply Rmult_le_compat_r with (r := b) in Hlo; lra.
    + apply Rmult_lt_compat_r with (r := b) in Hhi; lra.
Qed.

Lemma atan2_0_pos (x : R) : 0 < x -> Torch.atan2 0 x = 0.
Proof.
  intros Hx. unfold Torch.atan2.
  destruct (Rlt_dec 0 x); [|contradiction].
  unfold Rdiv. rewrite Rmult_0_l. apply atan_0.
Qed.

Lemma clamp_inside (x lo hi : R) :
  lo <= x <= hi -> Torch.clamp x lo hi = x.
Proof.
  intros [H1 H2]. unfold Torch.clamp, Rmin, Rmax.
  repeat destruct Rle_dec; lra.
Qed.

Lemma sin_lat_of_zero (lat_p : R) : sin_lat_of 0 0 lat_p = sin lat_p.
Proof. unfold sin_lat_of. rewrite sin_0, cos_0. ring. Qed.

(** With zero velocity the displacement is zero and the departure point is
    the arrival point: the latitude up to the clamp, the longitude modulo
    2 pi. *)
Lemma zero_velocity_departure (dt lat_p lon_p : R) :
  - (PI / 2) < lat_p < PI / 2 ->
  - 0 * dt = 0
  /\ transform_to_latlon (- 0 * dt) (- 0 * dt) lat_p lon_p
     = (asin (Torch.clamp (sin lat_p) (-1 + 1e-7) (1 - 1e-7)),
        Torch.remainder (lon_p + 2 * PI) (2 * PI))
  /\ (-1 + 1e-7 <= sin lat_p <= 1 - 1e-7 ->
      fst (transform_to_latlon (- 0 * dt) (- 0 * dt) lat_p lon_p) = lat_p)
  /\ (0 <= lon_p < 2 * PI ->
      snd (transform_to_latlon (- 0 * dt) (- 0 * dt) lat_p lon_p) = lon_p).
Proof.
  intros Hlat.
  assert (Hz : - 0 * dt = 0) by ring.
  assert (Hcos : 0 < cos lat_p) by (apply cos_gt_0; lra).
  assert (E : transform_to_latlon (- 0 * dt) (- 0 * dt) lat_p lon_p
              = (asin (Torch.clamp (sin lat_p) (-1 + 1e-7) (1 - 1e-7)),
                 Torch.remainder (lon_p + 2 * PI) (2 * PI))).
  { rewrite Hz. unfold transform_to_latlon, transform_lat, transform_lon,
      clamped_sin_lat. rewrite sin_lat_of_zero. cbv zeta.
    rewrite sin_0, cos_0.
    replace (1 * 0) with 0 by ring.
    replace (1 * 1 * cos lat_p - 0 * sin lat_p) with (cos lat_p) by ring.
    rewrite (atan2_0_pos _ Hcos).
    replace (lon_p + 0 + 2 * PI) with (lon_p + 2 * PI) by ring.
    reflexivity. }
  split; [exact Hz|]. split; [exact E|]. rewrite E. cbn [fst snd]. split.
  - intros Hs. rewrite clamp_inside by exact Hs. apply asin_sin. lra.
  - intros Hlon. pose proof PI_RGT_0.
    rewrite (remainder_eq _ _ 1); lra.
Qed.

(** The departure point does not change when the arrival longitude is
    shifted by 2 pi. *)
Lemma transform_to_latlon_shift (lat_prime lon_prime lat_p lon_p : R) :
  transform_to_latlon lat_prime lon_prime lat_p (lon_p + 2 * PI)
  = transform_to_latlon lat_prime lon_prime lat_p lon_p.
Proof.
  unfold transform_to_latlon, transform_lon. cbv zeta. f_equal.
  match goal with
  | |- Torch.remainder (lon_p + 2 * PI + ?a + 2 * PI) _ = _ =>
      replace (lon_p + 2 * PI + a + 2 * PI)
        with ((lon_p + a + 2 * PI) + 2 * PI) by ring
  end.
  apply remainder_periodic. pose proof PI_RGT_0. lra.
Qed.

(** ** Evaluating the sampler *)

Lemma bicubic_at
    (pix : nat -> nat -> R) (H W : nat) (x y : R) (kx ky : Z) (tx ty : R) :
  GridSample.unnormalize x W = IZR kx + tx -> 0 <= tx < 1 ->
  GridSample.unnormalize y H = IZR ky + ty -> 0 <= ty < 1 ->
  GridSample.bicubic pix H W x y
  = let row (i : Z) :=
      GridSample.cubic_interp1d
        (GridSample.get_value_bounded pix H W (kx - 1) (ky - 1 + i))
        (GridSample.get_value_bounded pix H W (kx + 0) (ky - 1 + i))
        (GridSample.get_value_bounded pix H W (kx + 1) (ky - 1 + i))
        (GridSample.get_value_bounded pix H W (kx + 2) (ky - 1 + i))
        tx in
    GridSample.cubic_interp1d (row 0%Z) (row 1%Z) (row 2%Z) (row 3%Z) ty.
Proof.
  intros Ex Htx Ey Hty. unfold GridSample.bicubic. cbv zeta.
  rewrite (Zfloor_eq kx) by lra. rewrite (Zfloor_eq ky) by lra.
  replace (GridSample.unnormalize x W - IZR kx) with tx by lra.
  replace (GridSample.unnormalize y H - IZR ky) with ty by lra.
  reflexivity.
Qed.

Lemma cubic_interp1d_0 (x0 x1 x2 x3 : R) :
  GridSample.cubic_interp1d x0 x1 x2 x3 0 = x1.
Proof.
  unfold GridSample.cubic_interp1d, GridSample.cubic_convolution1,
    GridSample.cubic_convolution2, GridSample.A. lra.
Qed.

Lemma cubic_interp1d_four_fifths (x0 x1 x2 x3 : R) :
  GridSample.cubic_interp1d x0 x1 x2 x3 (4 / 5)
  = - 0.024 * x0 + 0.2 * x1 + 0.92 * x2 - 0.096 * x3.
Proof.
  unfold GridSample.cubic_interp1d, GridSample.cubic_convolution1,
    GridSample.cubic_convolution2, GridSample.A. lra.
Qed.

(** The cubic weights sum to one. *)
Lemma cubic_interp1d_const (c t : R) :
  GridSample.cubic_interp1d c c c c t = c.
Proof.
  unfold GridSample.cubic_interp1d, GridSample.cubic_convolution1,
    GridSample.cubic_convolution2, GridSample.A. field.
Qed.

(** ** The advection step in still air *)

Lemma zero_predictor_item (c_out : nat) (x : Tensor) (idx : list nat) :
  item (zero_predictor c_out x) idx = 0.
Proof.
  unfold zero_predictor.
  destruct (shape x) as [|? [|? [|? [|? [|]]]]]; reflexivity.
Qed.

Lemma still_air_forward
    (C : nat) (mesh : nat * nat)
    (hidden_features lat_grid lon_grid : Tensor) (dt : R)
    (B H W : nat) (min_lat max_lat min_lon max_lon : R) :
  shape hidden_features = [B; C; H; W] ->
  shape lat_grid = [B; H; W] ->
  shape lon_grid = [B; H; W] ->
  expanded_extrema lat_grid C = Ok (min_lat, max_lat) ->
  expanded_extrema lon_grid C = Ok (min_lon, max_lon) ->
  exists out,
    forward (NeuralSemiLagrangian_init still_air C mesh false)
            hidden_features lat_grid lon_grid dt
    = Ok (VTensor out)
    /\ shape out = [B; C; H; W]
    /\ forall b c i j,
         (b < B)%nat -> (c < C)%nat -> (i < H)%nat -> (j < W)%nat ->
         item out [b; c; i; j]
         = let g := sampling_coordinate dt 0 0
                      (item lat_grid [b; i; j]) (item lon_grid [b; i; j])
                      min_lat max_lat min_lon max_lon in
           GridSample.bicubic
             (fun y x => item (geocyclic_padding 1 hidden_features)
                              [b; c; y; x])
             (H + 2) (W + 2)
             (rescale_to_padded (fst g) W (W + 2))
             (rescale_to_padded (snd g) H (H + 2)).
Proof.
  intros Hhf Hlat Hlon Elat Elon.
  set (m := NeuralSemiLagrangian_init still_air C mesh false).
  destruct (forward_spec m hidden_features lat_grid lon_grid dt
              B C H W (H + 2) (W + 2)
              (zero_predictor (2 * C) hidden_features) (full [] 0)
              min_lat max_lat min_lon max_lon)
    as (out & Hfw & Hout & Hitems); try assumption; try reflexivity.
  - unfold zero_predictor. rewrite Hhf. reflexivity.
  - apply (GeoCyclicPadding_shape still_air still_air_interfaces 1).
    exact Hhf.
  - exists out. split; [exact Hfw|]. split; [exact Hout|].
    intros b c i j Hb Hc Hi Hj.
    rewrite (Hitems b c i j Hb Hc Hi Hj).
    rewrite !zero_predictor_item. reflexivity.
Qed.

(** ** The three-by-three example *)

Ltac grid3_bounds :=
  let b := fresh "b" in
  let i := fresh "i" in
  let j := fresh "j" in
  intros b i j ? ? ?;
  destruct i as [|[|[|i]]]; try lia;
  destruct j as [|[|[|j]]]; try lia;
  cbn; pose proof PI_RGT_0; lra.

Lemma lat3_extrema : expanded_extrema lat3 1 = Ok (- (PI / 4), PI / 4).
Proof.
  apply (expanded_extrema_spec lat3 1 1 3 3); [reflexivity | lia | | | ].
  - exists 0%nat, 0%nat, 0%nat. repeat split; try lia.
  - exists 0%nat, 2%nat, 0%nat. repeat split; try lia.
  - grid3_bounds.
Qed.

Lemma lon3_extrema : expanded_extrema lon3 1 = Ok (0, 4 * PI / 3).
Proof.
  apply (expanded_extrema_spec lon3 1 1 3 3); [reflexivity | lia | | | ].
  - exists 0%nat, 0%nat, 0%nat. repeat split; try lia.
  - exists 0%nat, 0%nat, 2%nat. repeat split; try lia.
  - grid3_bounds.
Qed.


Lemma wrap_longitude_eval (x : R) (k : Z) :
  IZR k * 2 <= x + 1 < (IZR k + 1) * 2 ->
  wrap_longitude x = x - 2 * IZR k.
Proof.
  intros Hk. unfold wrap_longitude; simpl.
  rewrite (remainder_eq _ _ k); lra.
Qed.

(** The sampling coordinate of a cell in still air, from the rescaled
    arrival point. *)
Lemma still_coordinate
    (dt lat_p lon_p lon_n min_lat max_lat min_lon max_lon gx gy : R)
    (k : Z) :
  - (PI / 2) < lat_p < PI / 2 ->
  -1 + 1e-7 <= sin lat_p <= 1 - 1e-7 ->
  Torch.remainder (lon_p + 2 * PI) (2 * PI) = lon_n ->
  rescale lat_p min_lat max_lat = gy -> -1 <= gy <= 1 ->
  rescale lon_n min_lon max_lon = gx ->
  IZR k * 2 <= gx + 1 < (IZR k + 1) * 2 ->
  sampling_coordinate dt 0 0 lat_p lon_p min_lat max_lat min_lon max_lon
  = (gx - 2 * IZR k, gy).
Proof.
  intros Hlat Hsin Hlon Egy Hgy Egx Hk.
  destruct (zero_velocity_departure dt lat_p lon_p Hlat)
    as (_ & E & Hfst & _).
  specialize (Hfst Hsin). unfold sampling_coordinate.
  rewrite E in *. cbn [fst] in Hfst. rewrite Hfst, Hlon.
  unfold grid_mapping. rewrite Egx, Egy.
  rewrite (wrap_longitude_eval gx k Hk).
  rewrite geocyclic_roll_inside
    by (unfold Rabs; destruct Rcase_abs; lra).
  destruct (mirror_latitude_cases gy)
    as [[Hy _] | [[Hy _] | [[_ Em] | [Hy _]]]]; try lra.
  rewrite Em. reflexivity.
Qed.

Lemma get_value_bounded_clip
    (pix : nat -> nat -> R) (H W : nat) (x y : Z) :
  (0 < H)%nat -> (0 < W)%nat ->
  GridSample.get_value_bounded pix H W x y
  = pix (Z.to_nat (GridSample.clip_coordinates y H))
        (Z.to_nat (GridSample.clip_coordinates x W)).
Proof.
  intros HH HW. unfold GridSample.get_value_bounded.
  destruct (_ && _)%bool eqn:Hin; [reflexivity|].
  exfalso. unfold GridSample.clip_coordinates in Hin.
  repeat (apply andb_false_iff in Hin as [Hin | Hin]); lia.
Qed.

Lemma zonal3_sample_centre (a b c : R) :
  GridSample.bicubic
    (fun y x => item (geocyclic_padding 1 (zonal_field 3 [a; b; c]))
                     [0%nat; 0%nat; y; x])
    (3 + 2) (3 + 2)
    (rescale_to_padded 0 3 (3 + 2)) (rescale_to_padded 0 3 (3 + 2))
  = b.
Proof.
  rewrite (bicubic_at _ _ _ _ _ 2 2 0 0);
    try (unfold GridSample.unnormalize, rescale_to_padded; simpl; lra).
  cbv zeta. rewrite !cubic_interp1d_0.
  rewrite get_value_bounded_clip by lia. reflexivity.
Qed.

Lemma zonal3_sample_west (a b c : R) :
  GridSample.bicubic
    (fun y x => item (geocyclic_padding 1 (zonal_field 3 [a; b; c]))
                     [0%nat; 0%nat; y; x])
    (3 + 2) (3 + 2)
    (rescale_to_padded (-1) 3 (3 + 2)) (rescale_to_padded 0 3 (3 + 2))
  = 0.176 * c + 0.92 * a - 0.096 * b.
Proof.
  rewrite (bicubic_at _ _ _ _ _ 0 2 (4 / 5) 0);
    try (unfold GridSample.unnormalize, rescale_to_padded; simpl; lra).
  cbv zeta. rewrite cubic_interp1d_0. rewrite cubic_interp1d_four_fifths.
  rewrite !get_value_bounded_clip by lia.
  change (item (geocyclic_padding 1 (zonal_field 3 [a; b; c]))
            [0%nat; 0%nat;
             Z.to_nat (GridSample.clip_coordinates (2 - 1 + 1) (3 + 2));
             Z.to_nat (GridSample.clip_coordinates (0 - 1) (3 + 2))])
    with c.
  change (item (geocyclic_padding 1 (zonal_field 3 [a; b; c]))
            [0%nat; 0%nat;
             Z.to_nat (GridSample.clip_coordinates (2 - 1 + 1) (3 + 2));
             Z.to_nat (GridSample.clip_coordinates (0 + 0) (3 + 2))])
    with c.
  change (item (geocyclic_padding 1 (zonal_field 3 [a; b; c]))
            [0%nat; 0%nat;
             Z.to_nat (GridSample.clip_coordinates (2 - 1 + 1) (3 + 2));
             Z.to_nat (GridSample.clip_coordinates (0 + 1) (3 + 2))])
    with a.
  change (item (geocyclic_padding 1 (zonal_field 3 [a; b; c]))
            [0%nat; 0%nat;
             Z.to_nat (GridSample.clip_coordinates (2 - 1 + 1) (3 + 2));
             Z.to_nat (GridSample.clip_coordinates (0 + 2) (3 + 2))])
    with b.
  lra.
Qed.

Lemma rescale_lat3_equator : rescale 0 (- (PI / 4)) (PI / 4) = 0.
Proof. unfold rescale; simpl. pose proof PI_RGT_0. field. lra. Qed.

Lemma equator_in_clamp : -1 + 1e-7 <= sin 0 <= 1 - 1e-7.
Proof. rewrite sin_0. lra. Qed.

(** In still air on the three-by-three grid, the middle row of a zonal
    field [a; b; c]: the centre cell keeps its value, the two outer cells
    both receive the value sampled 4/5 of a pixel into the padded row. *)
Lemma still3_middle_row (dt a b c : R) :
  exists out,
    forward still3 (zonal_field 3 [a; b; c]) lat3 lon3 dt = Ok (VTensor out)
    /\ item out [0; 0; 1; 0]%nat = 0.176 * c + 0.92 * a - 0.096 * b
    /\ item out [0; 0; 1; 1]%nat = b
    /\ item out [0; 0; 1; 2]%nat = 0.176 * c + 0.92 * a - 0.096 * b.
Proof.
  pose proof PI_RGT_0 as Hpi.
  destruct (still_air_forward 1 (3, 3)%nat (zonal_field 3 [a; b; c])
              lat3 lon3 dt 1 3 3 _ _ _ _
              eq_refl eq_refl eq_refl lat3_extrema lon3_extrema)
    as (out & Hfw & _ & Hitems).
  exists out. split; [exact Hfw|].
  split; [|split].
  - rewrite (Hitems 0 0 1 0)%nat by lia.
    change (item lat3 [0; 1; 0]%nat) with 0.
    change (item lon3 [0; 1; 0]%nat) with 0.
    rewrite (still_coordinate dt 0 0 0 _ _ _ _ (-1) 0 0);
      try lra; try exact equator_in_clamp;
      try exact rescale_lat3_equator.
    + cbv zeta. cbn [fst snd].
      replace (-1 - 2 * 0) with (-1) by lra.
      apply zonal3_sample_west.
    + rewrite (remainder_eq _ _ 1); lra.
    + unfold rescale; simpl. field. lra.
  - rewrite (Hitems 0 0 1 1)%nat by lia.
    change (item lat3 [0; 1; 1]%nat) with 0.
    change (item lon3 [0; 1; 1]%nat) with (2 * PI / 3).
    rewrite (still_coordinate dt 0 (2 * PI / 3) (2 * PI / 3) _ _ _ _ 0 0 0);
      try lra; try exact equator_in_clamp;
      try exact rescale_lat3_equator.
    + cbv zeta. cbn [fst snd].
      replace (0 - 2 * 0) with 0 by lra.
      apply zonal3_sample_centre.
    + rewrite (remainder_eq _ _ 1); lra.
    + unfold rescale; simpl. field. lra.
  - rewrite (Hitems 0 0 1 2)%nat by lia.
    change (item lat3 [0; 1; 2]%nat) with 0.
    change (item lon3 [0; 1; 2]%nat) with (4 * PI / 3).
    rewrite (still_coordinate dt 0 (4 * PI / 3) (4 * PI / 3) _ _ _ _ 1 0 1);
      try lra; try exact equator_in_clamp;
      try exact rescale_lat3_equator.
    + cbv zeta. cbn [fst snd].
      replace (1 - 2 * 1) with (-1) by lra.
      apply zonal3_sample_west.
    + rewrite (remainder_eq _ _ 1); lra.
    + unfold rescale; simpl. field. lra.
Qed.


(** ** The velocity channels in the advection step *)

Lemma forward_returns_split
    (m : NeuralSemiLagrangian)
    (hidden_features lat_grid lon_grid : Tensor) (dt : R)
    (velocities kl_loss : Tensor) :
  call_velocity_net m hidden_features = Ok (velocities, kl_loss) ->
  returns (forward m hidden_features lat_grid lon_grid dt) ->
  returns (split_velocities (hidden_dim m)
             (nth 0 (shape hidden_features) 0%nat) velocities).
Proof.
  intros Hcall [r E]. unfold forward in E. rewrite Hcall in E.
  cbn [bind] in E.
  destruct (split_velocities _ _ velocities) as [uv | e];
    [exists uv; reflexivity | discriminate E].
Qed.

Lemma call_velocity_net_predictor
    (lib : Collaborators) (C : nat) (mesh : nat * nat) (variational : bool)
    (x velocities kl_loss : Tensor) :
  call_velocity_net (NeuralSemiLagrangian_init lib C mesh variational) x
  = Ok (velocities, kl_loss) ->
  velocities = if variational
               then fst (VariationalCLP lib C (2 * C) mesh x)
               else CLP lib C (2 * C) mesh x.
Proof.
  unfold call_velocity_net, NeuralSemiLagrangian_init.
  revert variational. intros [|]; cbn [negb variational velocity_net];
    intros E.
  - injection E as E. apply (f_equal fst) in E. symmetry. exact E.
  - injection E as E _. symmetry. exact E.
Qed.

(** C7: the layer built by [__init__] calls the predictor constructed for
    2 * hidden_dim output channels, whose output has 2C channels when the
    predictor keeps its interface; on a [B, C, H, W] input, [forward]
    returns exactly when the predictor's output [B, K, H, W] has K = 2C
    channels, and then every output entry is the sample taken at the
    departure point computed with channel c as u (the displacement in
    longitude is -u dt) and channel C + c as v (the displacement in
    latitude is -v dt), at every batch element, channel and grid
    position. *)
Theorem velocity_first_half_u_second_half_v
    (lib : Collaborators) (C : nat) (mesh : nat * nat) (variational : bool)
    (hidden_features lat_grid lon_grid : Tensor) (dt : R)
    (B K H W Hp Wp : nat) (velocities kl_loss : Tensor)
    (min_lat max_lat min_lon max_lon : R) :
  let m := NeuralSemiLagrangian_init lib C mesh variational in
  shape hidden_features = [B; C; H; W] ->
  shape lat_grid = [B; H; W] ->
  shape lon_grid = [B; H; W] ->
  (0 < B)%nat -> (0 < H)%nat -> (0 < W)%nat ->
  call_velocity_net m hidden_features = Ok (velocities, kl_loss) ->
  shape velocities = [B; K; H; W] ->
  shape (padding_interp m hidden_features) = [B; C; Hp; Wp] ->
  expanded_extrema lat_grid C = Ok (min_lat, max_lat) ->
  expanded_extrema lon_grid C = Ok (min_lon, max_lon) ->
  min_lat < max_lat ->
  min_lon < max_lon ->
  velocities = (if variational
                then fst (VariationalCLP lib C (2 * C) mesh hidden_features)
                else CLP lib C (2 * C) mesh hidden_features)
  /\ (interfaces lib -> K = (2 * C)%nat)
  /\ (returns (forward m hidden_features lat_grid lon_grid dt)
      <-> K = (2 * C)%nat)
  /\ (K = (2 * C)%nat ->
      exists out,
        forward m hidden_features lat_grid lon_grid dt
        = Ok (wrap_output m out kl_loss)
        /\ shape out = [B; C; H; W]
        /\ forall b c i j,
             (b < B)%nat -> (c < C)%nat -> (i < H)%nat -> (j < W)%nat ->
             let u := item velocities [b; c; i; j] in
             let v := item velocities [b; (C + c)%nat; i; j] in
             let lon_prime := - u * dt in
             let lat_prime := - v * dt in
             let dep := transform_to_latlon lat_prime lon_prime
                          (item lat_grid [b; i; j])
                          (item lon_grid [b; i; j]) in
             let g := grid_mapping (fst dep) (snd dep)
                        min_lat max_lat min_lon max_lon in
             item out [b; c; i; j]
             = GridSample.bicubic
                 (fun y x => item (padding_interp m hidden_features)
                                  [b; c; y; x])
                 Hp Wp
                 (rescale_to_padded (fst g) W Wp)
                 (rescale_to_padded (snd g) H Hp)).
Proof.
  intros m Hhf Hlat Hlon HB HH HW Hcall Hvel Hpad Elat Elon _ _.
  assert (Hspec : K = (2 * C)%nat ->
            exists out,
              forward m hidden_features lat_grid lon_grid dt
              = Ok (wrap_output m out kl_loss)
              /\ shape out = [B; C; H; W]
              /\ forall b c i j,
                   (b < B)%nat -> (c < C)%nat -> (i < H)%nat -> (j < W)%nat ->
                   item out [b; c; i; j]
                   = let g := sampling_coordinate dt
                                (item velocities [b; c; i; j])
                                (item velocities [b; (C + c)%nat; i; j])
                                (item lat_grid [b; i; j])
                                (item lon_grid [b; i; j])
                                min_lat max_lat min_lon max_lon in
                     GridSample.bicubic
                       (fun y x => item (padding_interp m hidden_features)
                                        [b; c; y; x])
                       Hp Wp
                       (rescale_to_padded (fst g) W Wp)
                       (rescale_to_padded (snd g) H Hp)).
  { intros HK. rewrite HK in Hvel.
    exact (forward_spec m hidden_features lat_grid lon_grid dt
             B C H W Hp Wp velocities kl_loss
             min_lat max_lat min_lon max_lon
             eq_refl Hhf Hlat Hlon Hcall Hvel Hpad Elat Elon). }
  split; [exact (call_velocity_net_predictor _ _ _ _ _ _ _ Hcall)|].
  split; [|split; [split|]].
  - intros Hlib.
    destruct (call_velocity_net_init lib Hlib C mesh variational
                hidden_features B H W Hhf) as (vel & kl & Hcall' & Hvel').
    fold m in Hcall'. rewrite Hcall in Hcall'.
    injection Hcall' as <- _. rewrite Hvel in Hvel'.
    injection Hvel' as HK. exact HK.
  - intros Hret.
    pose proof (forward_returns_split m _ lat_grid lon_grid dt _ _
                  Hcall Hret) as Hsplit.
    rewrite Hhf in Hsplit. cbn [nth] in Hsplit.
    exact (split_velocities_channels C B K H W velocities
             Hvel HB HH HW Hsplit).
  - intros HK. destruct (Hspec HK) as (out & Hfw & _).
    eexists. exact Hfw.
  - intros HK. destruct (Hspec HK) as (out & Hfw & Hout & Hitems).
    exists out. split; [exact Hfw|]. split; [exact Hout|].
    intros b c i j Hb Hc Hi Hj. cbv zeta.
    rewrite (Hitems b c i j Hb Hc Hi Hj). reflexivity.
Qed.

Lemma velocity_first_half_u_second_half_v_witness :
  let lib := uniform_wind 1 0 in
  let hidden_features := zonal_field 3 [0; 1; 0] in
  let velocities := uniform_wind_predictor 1 0 2 hidden_features in
  let m := NeuralSemiLagrangian_init lib 1 (3, 3)%nat false in
  velocities = CLP lib 1 (2 * 1) (3, 3)%nat hidden_features
  /\ (interfaces lib -> 2%nat = (2 * 1)%nat)
  /\ (returns (forward m hidden_features lat3 lon3 (1 / 100))
      <-> 2%nat = (2 * 1)%nat)
  /\ (2%nat = (2 * 1)%nat ->
      exists out,
        forward m hidden_features lat3 lon3 (1 / 100)
        = Ok (wrap_output m out (full [] 0))
        /\ shape out = [1; 1; 3; 3]%nat
        /\ forall b c i j,
             (b < 1)%nat -> (c < 1)%nat -> (i < 3)%nat -> (j < 3)%nat ->
             let u := item velocities [b; c; i; j] in
             let v := item velocities [b; (1 + c)%nat; i; j] in
             let lon_prime := - u * (1 / 100) in
             let lat_prime := - v * (1 / 100) in
             let dep := transform_to_latlon lat_prime lon_prime
                          (item lat3 [b; i; j]) (item lon3 [b; i; j]) in
             let g := grid_mapping (fst dep) (snd dep)
                        (- (PI / 4)) (PI / 4) 0 (4 * PI / 3) in
             item out [b; c; i; j]
             = GridSample.bicubic
                 (fun y x => item (padding_interp m hidden_features)
                                  [b; c; y; x])
                 5 5
                 (rescale_to_padded (fst g) 3 5)
                 (rescale_to_padded (snd g) 3 5)).
Proof.
  apply (velocity_first_half_u_second_half_v (uniform_wind 1 0) 1
           (3, 3)%nat false (zonal_field 3 [0; 1; 0]) lat3 lon3 (1 / 100)
           1 2 3 3 5 5
           (uniform_wind_predictor 1 0 2 (zonal_field 3 [0; 1; 0]))
           (full [] 0) (- (PI / 4)) (PI / 4) 0 (4 * PI / 3));
    try reflexivity; try lia;
    try exact lat3_extrema; try exact lon3_extrema;
    pose proof PI_RGT_0; lra.
Defined.

(** ** The outer model *)

Ltac invert_binds H :=
  repeat match type of H with
         | bind ?c _ = Ok _ =>
             let E := fresh "E" in
             destruct c eqn:E; cbn [bind] in H; [| discriminate H]
         | match ?a with pair _ _ => _ end = Ok _ => destruct a
         end.

Lemma forward_variational_returns_pair
    (m : NeuralSemiLagrangian)
    (hidden_features lat_grid lon_grid : Tensor) (dt : R) (v : value) :
  variational m = true ->
  forward m hidden_features lat_grid lon_grid dt = Ok v ->
  exists out kl_loss, v = VTuple [VTensor out; VTensor kl_loss].
Proof.
  intros Hvar Hfw. unfold forward in Hfw.
  invert_binds Hfw. rewrite Hvar in Hfw.
  injection Hfw as <-. eexists; eexists; reflexivity.
Qed.

Lemma substep_variational_raises
    (p : Paradis) (lat_grid lon_grid z : Tensor) :
  variational (advection p) = true ->
  raises (substep p lat_grid lon_grid z).
Proof.
  intros Hvar. unfold substep.
  destruct (forward (advection p) z lat_grid lon_grid (dt p))
    as [v | e] eqn:Efw; [| eexists; reflexivity].
  destruct (forward_variational_returns_pair _ _ _ _ _ _ Hvar Efw)
    as (out & kl & ->).
  cbn [bind].
  destruct (diffusion_reaction p _) as [dz | e]; [| eexists; reflexivity].
  cbn [bind].
  destruct dz as [t | s | l]; cbn; eexists; reflexivity.
Qed.

Lemma Paradis_forward_variational_raises (p : Paradis) (x : Tensor) :
  variational (advection p) = true ->
  (1 <= num_substeps p)%Z ->
  raises (Paradis_forward p x).
Proof.
  intros Hvar Hn. unfold Paradis_forward.
  destruct (extract_grids p x) as [[lat_grid lon_grid] | e];
    [| eexists; reflexivity].
  cbn [bind]. unfold run_substeps.
  destruct (Z.to_nat (num_substeps p)) as [| n] eqn:En; [lia|].
  cbn [substeps].
  destruct (substep_variational_raises p lat_grid lon_grid (input_proj p x)
              Hvar) as [e He].
  rewrite He. eexists; reflexivity.
Qed.

(** C9: a model built with the variational configuration and at least one
    sub-step has an advection layer that returns the pair (advected
    features, loss) whenever it returns, and [Paradis.forward] raises on
    every input: the pair reaches [z_adv + dt * dz] without being
    unpacked. *)
Theorem variational_forward_fails
    (lib : Collaborators) (layers : Layers) (cfg : Config) :
  ensemble_enable cfg = true ->
  (1 <= cfg_num_substeps cfg)%Z ->
  exists p,
    Paradis_init lib layers cfg = Ok p
    /\ (forall z lat_grid lon_grid v,
          forward (advection p) z lat_grid lon_grid (dt p) = Ok v ->
          exists out kl_loss, v = VTuple [VTensor out; VTensor kl_loss])
    /\ forall x, raises (Paradis_forward p x).
Proof.
  intros Hvar Hn. unfold Paradis_init.
  destruct (Z.eqb_spec (cfg_num_substeps cfg) 0) as [E | _]; [lia|].
  cbn [bind]. eexists. split; [reflexivity|]. split.
  - intros z lat_grid lon_grid v.
    apply forward_variational_returns_pair. cbn. exact Hvar.
  - intros x. apply Paradis_forward_variational_raises; cbn; assumption.
Qed.

Lemma variational_forward_fails_witness :
  exists p,
    Paradis_init still_air identity_layers (example_config true) = Ok p
    /\ (forall z lat_grid lon_grid v,
          forward (advection p) z lat_grid lon_grid (dt p) = Ok v ->
          exists out kl_loss, v = VTuple [VTensor out; VTensor kl_loss])
    /\ forall x, raises (Paradis_forward p x).
Proof.
  apply (variational_forward_fails still_air identity_layers
           (example_config true)).
  - reflexivity.
  - simpl. lia.
Defined.

Lemma select_channel_from_end
    (t : Tensor) (B C H W : nat) (k : nat) :
  shape t = [B; C; H; W] ->
  (1 <= k <= C)%nat ->
  exists g,
    select_channel t (- Z.of_nat k) = Ok g
    /\ shape g = [B; H; W]
    /\ forall b i j, item g [b; i; j] = item t [b; (C - k)%nat; i; j].
Proof.
  intros Hs Hk. unfold select_channel. rewrite Hs.
  destruct (Z.ltb_spec (- Z.of_nat k) 0) as [_ | Hge]; [| lia].
  destruct (_ && _)%bool eqn:Hin.
  - eexists. split; [reflexivity|]. split; [reflexivity|].
    intros b i j. cbn [item].
    replace (Z.to_nat (- Z.of_nat k + Z.of_nat C)) with (C - k)%nat by lia.
    reflexivity.
  - apply andb_false_iff in Hin as [Hin | Hin]; lia.
Qed.

Lemma extract_grids_spec
    (p : Paradis) (x : Tensor) (B C H W : nat) :
  shape x = [B; C; H; W] ->
  (num_dynamic_channels p + 2 <= C)%nat ->
  let x_static := channels_from x (num_dynamic_channels p) in
  let n_static := (C - num_dynamic_channels p)%nat in
  exists lat_grid lon_grid,
    extract_grids p x = Ok (lat_grid, lon_grid)
    /\ shape x_static = [B; n_static; H; W]
    /\ shape lat_grid = [B; H; W]
    /\ shape lon_grid = [B; H; W]
    /\ (forall b i j,
          item lat_grid [b; i; j]
          = item x_static [b; (n_static - 2)%nat; i; j]
          /\ item lon_grid [b; i; j]
             = item x_static [b; (n_static - 1)%nat; i; j]
          /\ item lat_grid [b; i; j] = item x [b; (C - 2)%nat; i; j]
          /\ item lon_grid [b; i; j] = item x [b; (C - 1)%nat; i; j])
    /\ Paradis_forward p x = run_substeps p x lat_grid lon_grid
    /\ forall z,
         substep p lat_grid lon_grid z
         = (z_adv <- forward (advection p) z lat_grid lon_grid (dt p) ;;
            dz <- diffusion_reaction p z_adv ;;
            scaled <- py_float_mul (dt p) dz ;;
            increment <- py_add z_adv scaled ;;
            py_iadd z increment).
Proof.
  intros Hs Hc x_static n_static.
  assert (Hst : shape x_static = [B; n_static; H; W])
    by (unfold x_static, channels_from; cbn [shape]; rewrite Hs; reflexivity).
  destruct (select_channel_from_end x_static B n_static H W 2 Hst)
    as (lat_grid & Elat & Hlat & Ilat); [unfold n_static; lia|].
  destruct (select_channel_from_end x_static B n_static H W 1 Hst)
    as (lon_grid & Elon & Hlon & Ilon); [unfold n_static; lia|].
  exists lat_grid, lon_grid.
  assert (Eg : extract_grids p x = Ok (lat_grid, lon_grid)).
  { unfold extract_grids. fold x_static.
    change (-2)%Z with (- Z.of_nat 2)%Z. rewrite Elat. cbn [bind].
    change (-1)%Z with (- Z.of_nat 1)%Z. rewrite Elon. reflexivity. }
  split; [exact Eg|]. split; [exact Hst|].
  split; [exact Hlat|]. split; [exact Hlon|]. split; [|split].
  - intros b i j. rewrite Ilat, Ilon.
    split; [reflexivity|]. split; [reflexivity|].
    unfold x_static, channels_from, n_static. cbn [item].
    split; f_equal; f_equal; f_equal; lia.
  - unfold Paradis_forward. rewrite Eg. reflexivity.
  - intros z. reflexivity.
Qed.

Lemma substeps_unfold
    (p : Paradis) (lat_grid lon_grid : Tensor) (n : nat) (z : Tensor) :
  substeps p lat_grid lon_grid (S n) z
  = (z_adv <- forward (advection p) z lat_grid lon_grid (dt p) ;;
     dz <- diffusion_reaction p z_adv ;;
     scaled <- py_float_mul (dt p) dz ;;
     increment <- py_add z_adv scaled ;;
     z' <- py_iadd z increment ;;
     substeps p lat_grid lon_grid n z').
Proof.
  cbn [substeps]. unfold substep.
  destruct (forward _ _ _ _ _) as [z_adv | e]; cbn [bind]; [|reflexivity].
  destruct (diffusion_reaction p z_adv) as [dz | e]; cbn [bind];
    [|reflexivity].
  destruct (py_float_mul _ dz) as [scaled | e]; cbn [bind]; [|reflexivity].
  destruct (py_add z_adv scaled) as [increment | e]; cbn [bind];
    reflexivity.
Qed.

Lemma first_advection_error
    (p : Paradis) (x lat_grid lon_grid : Tensor) (e : exn) :
  (1 <= num_substeps p)%Z ->
  forward (advection p) (input_proj p x) lat_grid lon_grid (dt p) = Raise e ->
  run_substeps p x lat_grid lon_grid = Raise e.
Proof.
  intros Hn Hfw. unfold run_substeps.
  destruct (Z.to_nat (num_substeps p)) as [| n] eqn:En; [lia|].
  rewrite substeps_unfold, Hfw. reflexivity.
Qed.

(** C10: when the input has at least two channels after the dynamic ones,
    the latitude grid is the second-to-last and the longitude grid the last
    channel of the static slice [x[:, num_dynamic_channels:]] (the
    second-to-last and last channel of the input).  [forward] is the loop
    over the sub-steps run with these two tensors, and every pass through
    the loop calls the advection layer with the current features, this
    latitude grid as [lat_grid] and this longitude grid as [lon_grid], in
    that order; so an error of the first advection call on exactly these
    grids is the error of [forward]. *)
Theorem grids_are_last_two_static_channels
    (p : Paradis) (x : Tensor) (B C H W : nat) :
  shape x = [B; C; H; W] ->
  (num_dynamic_channels p + 2 <= C)%nat ->
  let x_static := channels_from x (num_dynamic_channels p) in
  let n_static := (C - num_dynamic_channels p)%nat in
  exists lat_grid lon_grid,
    extract_grids p x = Ok (lat_grid, lon_grid)
    /\ shape x_static = [B; n_static; H; W]
    /\ shape lat_grid = [B; H; W]
    /\ shape lon_grid = [B; H; W]
    /\ (forall b i j,
          item lat_grid [b; i; j]
          = item x_static [b; (n_static - 2)%nat; i; j]
          /\ item lon_grid [b; i; j]
             = item x_static [b; (n_static - 1)%nat; i; j]
          /\ item lat_grid [b; i; j] = item x [b; (C - 2)%nat; i; j]
          /\ item lon_grid [b; i; j] = item x [b; (C - 1)%nat; i; j])
    /\ Paradis_forward p x
       = (z <- substeps p lat_grid lon_grid
                 (Z.to_nat (num_substeps p)) (input_proj p x) ;;
          residual <- tensor_sub z (input_proj p x) ;;
          tensor_add (channels_upto x (num_common_features p))
                     (output_proj p residual))
    /\ (forall z, substeps p lat_grid lon_grid 0 z = Ok z)
    /\ (forall n z,
          substeps p lat_grid lon_grid (S n) z
          = (z_adv <- forward (advection p) z lat_grid lon_grid (dt p) ;;
             dz <- diffusion_reaction p z_adv ;;
             scaled <- py_float_mul (dt p) dz ;;
             increment <- py_add z_adv scaled ;;
             z' <- py_iadd z increment ;;
             substeps p lat_grid lon_grid n z'))
    /\ ((1 <= num_substeps p)%Z ->
        forall e,
          forward (advection p) (input_proj p x) lat_grid lon_grid (dt p)
          = Raise e ->
          Paradis_forward p x = Raise e).
Proof.
  intros Hs Hc x_static n_static.
  destruct (extract_grids_spec p x B C H W Hs Hc)
    as (lat_grid & lon_grid & Eg & Hst & Hlat & Hlon & Hitems & Efw & _).
  exists lat_grid, lon_grid.
  split; [exact Eg|]. split; [exact Hst|]. split; [exact Hlat|].
  split; [exact Hlon|]. split; [exact Hitems|].
  split; [rewrite Efw; reflexivity|].
  split; [reflexivity|].
  split; [intros n z; apply substeps_unfold|].
  intros Hn e Hfw. rewrite Efw.
  apply first_advection_error; assumption.
Qed.

Lemma example_model_init (variational : bool) :
  Paradis_init still_air identity_layers (example_config variational)
  = Ok (example_model variational).
Proof. reflexivity. Qed.

Lemma grids_are_last_two_static_channels_witness :
  let p := example_model false in
  let x := example_input [0; 1; 0] in
  let x_static := channels_from x (num_dynamic_channels p) in
  let n_static := (3 - num_dynamic_channels p)%nat in
  exists lat_grid lon_grid,
    extract_grids p x = Ok (lat_grid, lon_grid)
    /\ shape x_static = [1%nat; n_static; 3%nat; 3%nat]
    /\ shape lat_grid = [1; 3; 3]%nat
    /\ shape lon_grid = [1; 3; 3]%nat
    /\ (forall b i j,
          item lat_grid [b; i; j]
          = item x_static [b; (n_static - 2)%nat; i; j]
          /\ item lon_grid [b; i; j]
             = item x_static [b; (n_static - 1)%nat; i; j]
          /\ item lat_grid [b; i; j] = item x [b; (3 - 2)%nat; i; j]
          /\ item lon_grid [b; i; j] = item x [b; (3 - 1)%nat; i; j])
    /\ Paradis_forward p x
       = (z <- substeps p lat_grid lon_grid
                 (Z.to_nat (num_substeps p)) (input_proj p x) ;;
          residual <- tensor_sub z (input_proj p x) ;;
          tensor_add (channels_upto x (num_common_features p))
                     (output_proj p residual))
    /\ (forall z, substeps p lat_grid lon_grid 0 z = Ok z)
    /\ (forall n z,
          substeps p lat_grid lon_grid (S n) z
          = (z_adv <- forward (advection p) z lat_grid lon_grid (dt p) ;;
             dz <- diffusion_reaction p z_adv ;;
             scaled <- py_float_mul (dt p) dz ;;
             increment <- py_add z_adv scaled ;;
             z' <- py_iadd z increment ;;
             substeps p lat_grid lon_grid n z'))
    /\ ((1 <= num_substeps p)%Z ->
        forall e,
          forward (advection p) (input_proj p x) lat_grid lon_grid (dt p)
          = Raise e ->
          Paradis_forward p x = Raise e).
Proof.
  apply (grids_are_last_two_static_channels (example_model false)
           (example_input [0; 1; 0]) 1 3 3 3).
  - reflexivity.
  - simpl. lia.
Defined.

(** ** The rescale to the padded field *)

Lemma rescale_to_padded_ratio (x : R) (n : nat) :
  rescale_to_padded x n (n + 2) = x * (INR n / (INR n + 2)).
Proof.
  unfold rescale_to_padded. rewrite plus_INR. simpl INR.
  pose proof (pos_INR n). field. lra.
Qed.

Lemma unnormalize_rescaled_plus_one (n : nat) :
  GridSample.unnormalize (rescale_to_padded 1 n (n + 2)) (n + 2)
  = INR n + 1 / (INR n + 2).
Proof.
  rewrite rescale_to_padded_ratio. unfold GridSample.unnormalize.
  rewrite plus_INR. simpl INR. pose proof (pos_INR n). field. lra.
Qed.

Lemma unnormalize_rescaled_minus_one (n : nat) :
  GridSample.unnormalize (rescale_to_padded (-1) n (n + 2)) (n + 2)
  = 1 - 1 / (INR n + 2).
Proof.
  rewrite rescale_to_padded_ratio. unfold GridSample.unnormalize.
  rewrite plus_INR. simpl INR. pose proof (pos_INR n). field. lra.
Qed.

Lemma inv_plus_two_bounds (n : nat) : 0 < 1 / (INR n + 2) <= 1 / 2.
Proof.
  pose proof (pos_INR n) as Hn.
  assert (Hpos : 0 < INR n + 2) by lra.
  split.
  - apply Rdiv_lt_0_compat; lra.
  - apply Rmult_le_reg_r with (r := INR n + 2); [exact Hpos|].
    unfold Rdiv. rewrite Rmult_assoc, Rinv_l by lra. lra.
Qed.

(** C1: the rescale of lines 139-140 multiplies by W/(W+2) and H/(H+2),
    and under the sampler's corner-aligned pixel mapping the rescaled +1
    lands on padded position n + 1/(n+2) and the rescaled -1 on
    1 - 1/(n+2), for every size n: never on the centres n and 1 of the
    last and first unpadded cell.  Evaluated on the three-by-three grid
    in still air with the zonal field [1; 0; 0]: the cell in the middle
    row and first column has the sampling coordinate (-1, 0), is sampled
    at padded column 4/5 instead of 1, and receives 0.92 where the first
    pixel holds 1. *)
Theorem rescaled_corner_misses_cell_centre :
  (forall n : nat,
     GridSample.unnormalize (rescale_to_padded 1 n (n + 2)) (n + 2)
     = INR n + 1 / (INR n + 2)
     /\ GridSample.unnormalize (rescale_to_padded (-1) n (n + 2)) (n + 2)
        = 1 - 1 / (INR n + 2)
     /\ 0 < 1 / (INR n + 2))
  /\ exists out,
       forward still3 (zonal_field 3 [1; 0; 0]) lat3 lon3 (1 / 100)
       = Ok (VTensor out)
       /\ sampling_coordinate (1 / 100) 0 0
            (item lat3 [0; 1; 0]%nat) (item lon3 [0; 1; 0]%nat)
            (- (PI / 4)) (PI / 4) 0 (4 * PI / 3)
          = (-1, 0)
       /\ GridSample.unnormalize (rescale_to_padded (-1) 3 (3 + 2)) (3 + 2)
          = 4 / 5
       /\ item (zonal_field 3 [1; 0; 0]) [0; 0; 1; 0]%nat = 1
       /\ item out [0; 0; 1; 0]%nat = 0.92.
Proof.
  pose proof PI_RGT_0 as Hpi.
  split.
  - intros n. split; [apply unnormalize_rescaled_plus_one|].
    split; [apply unnormalize_rescaled_minus_one|].
    apply inv_plus_two_bounds.
  - destruct (still3_middle_row (1 / 100) 1 0 0) as (out & Hfw & Hw & _).
    exists out. split; [exact Hfw|]. split; [|split; [|split]].
    + change (item lat3 [0; 1; 0]%nat) with 0.
      change (item lon3 [0; 1; 0]%nat) with 0.
      rewrite (still_coordinate (1 / 100) 0 0 0 _ _ _ _ (-1) 0 0);
        try lra; try exact equator_in_clamp;
        try exact rescale_lat3_equator.
      * f_equal; lra.
      * rewrite (remainder_eq _ _ 1); lra.
      * unfold rescale; simpl. field. lra.
    + unfold GridSample.unnormalize, rescale_to_padded. simpl. lra.
    + reflexivity.
    + rewrite Hw. lra.
Qed.

(** ** Longitude shift and zero velocity on the three-by-three grid *)


(** C5, evaluated: a zonal field [0; 0; 1] on the three-by-three grid with
    zero velocity and dt = 0.01.  The cell in the middle row and last
    column holds 1 in the input and 0.176 in the output. *)
Theorem zero_velocity_changes_field :
  exists out,
    forward still3 (zonal_field 3 [0; 0; 1]) lat3 lon3 (1 / 100)
    = Ok (VTensor out)
    /\ item (zonal_field 3 [0; 0; 1]) [0; 0; 1; 2]%nat = 1
    /\ item out [0; 0; 1; 2]%nat = 0.176
    /\ 1e-5 < Rabs (item out [0; 0; 1; 2]%nat
                    - item (zonal_field 3 [0; 0; 1]) [0; 0; 1; 2]%nat).
Proof.
  destruct (still3_middle_row (1 / 100) 0 0 1) as (out & Hfw & _ & _ & Hl).
  exists out. split; [exact Hfw|]. split; [reflexivity|].
  rewrite Hl. cbn [item zonal_field nth]. split; [lra|].
  unfold Rabs. destruct Rcase_abs; lra.
Qed.


(** ** Uniform fields *)

Lemma bicubic_const
    (pix : nat -> nat -> R) (H W : nat) (x y k : R) :
  (0 < H)%nat -> (0 < W)%nat ->
  (forall iy ix, (iy < H)%nat -> (ix < W)%nat -> pix iy ix = k) ->
  GridSample.bicubic pix H W x y = k.
Proof.
  intros HH HW Hk.
  rewrite (bicubic_ext pix (fun _ _ => k) H W x y Hk).
  unfold GridSample.bicubic. cbv zeta.
  rewrite !get_value_bounded_clip by assumption.
  rewrite !cubic_interp1d_const. reflexivity.
Qed.

(** When the padded field is uniform, the advected field is uniform with
    the same value, whatever the velocities and the time step. *)
Lemma forward_uniform_field
    (m : NeuralSemiLagrangian)
    (hidden_features lat_grid lon_grid : Tensor) (dt k : R)
    (B C H W Hp Wp : nat) (velocities kl_loss : Tensor)
    (min_lat max_lat min_lon max_lon : R) :
  hidden_dim m = C ->
  shape hidden_features = [B; C; H; W] ->
  shape lat_grid = [B; H; W] ->
  shape lon_grid = [B; H; W] ->
  call_velocity_net m hidden_features = Ok (velocities, kl_loss) ->
  shape velocities = [B; (2 * C)%nat; H; W] ->
  shape (padding_interp m hidden_features) = [B; C; Hp; Wp] ->
  expanded_extrema lat_grid C = Ok (min_lat, max_lat) ->
  expanded_extrema lon_grid C = Ok (min_lon, max_lon) ->
  (0 < Hp)%nat -> (0 < Wp)%nat ->
  (forall b c y x,
     item (padding_interp m hidden_features) [b; c; y; x] = k) ->
  exists out,
    forward m hidden_features lat_grid lon_grid dt
    = Ok (wrap_output m out kl_loss)
    /\ shape out = [B; C; H; W]
    /\ forall b c i j,
         (b < B)%nat -> (c < C)%nat -> (i < H)%nat -> (j < W)%nat ->
         item out [b; c; i; j] = k.
Proof.
  intros HC Hhf Hlat Hlon Hcall Hvel Hpad Elat Elon HHp HWp Hk.
  destruct (forward_spec m hidden_features lat_grid lon_grid dt
              B C H W Hp Wp velocities kl_loss
              min_lat max_lat min_lon max_lon
              HC Hhf Hlat Hlon Hcall Hvel Hpad Elat Elon)
    as (out & Hfw & Hout & Hitems).
  exists out. split; [exact Hfw|]. split; [exact Hout|].
  intros b c i j Hb Hc Hi Hj.
  rewrite (Hitems b c i j Hb Hc Hi Hj). cbv zeta.
  apply bicubic_const; try assumption.
  intros iy ix _ _. apply Hk.
Qed.

Lemma geocyclic_padding_full (B C H W b c y x : nat) (k : R) :
  item (geocyclic_padding 1 (full [B; C; H; W] k)) [b; c; y; x] = k.
Proof.
  unfold geocyclic_padding. cbn [shape full item].
  destruct (_ <? 0)%Z; [reflexivity|].
  destruct (_ <? _)%Z; reflexivity.
Qed.

Lemma lat4_extrema :
  expanded_extrema lat4 1 = Ok (- (3 * PI / 8), 3 * PI / 8).
Proof.
  apply (expanded_extrema_spec lat4 1 1 4 8); [reflexivity | lia | | | ].
  - exists 0%nat, 0%nat, 0%nat. repeat split; try lia.
  - exists 0%nat, 3%nat, 0%nat. repeat split; try lia.
  - intros b i j Hb Hi Hj.
    destruct i as [|[|[|[|i]]]]; try lia;
      cbn; pose proof PI_RGT_0; lra.
Qed.

Lemma lon8_extrema : expanded_extrema lon8 1 = Ok (0, 7 * PI / 4).
Proof.
  apply (expanded_extrema_spec lon8 1 1 4 8); [reflexivity | lia | | | ].
  - exists 0%nat, 0%nat, 0%nat. repeat split; try lia.
  - exists 0%nat, 0%nat, 7%nat. repeat split; try lia.
  - intros b i j Hb Hi Hj.
    destruct j as [|[|[|[|[|[|[|[|j]]]]]]]]; try lia;
      cbn; pose proof PI_RGT_0; lra.
Qed.

(** The end-to-end scenario: the 4 by 8 grid, the uniform field 1.0, zero
    velocity, dt = 0.01.  The output is 1 at every cell. *)
Lemma uniform_scenario_4x8 :
  exists out,
    forward (NeuralSemiLagrangian_init still_air 1 (4, 8)%nat false)
            (full [1; 1; 4; 8]%nat 1) lat4 lon8 (1 / 100)
    = Ok (VTensor out)
    /\ shape out = [1; 1; 4; 8]%nat
    /\ forall i j, (i < 4)%nat -> (j < 8)%nat ->
         item out [0; 0; i; j]%nat = 1
         /\ Rabs (item out [0; 0; i; j]%nat - 1) <= 1e-5.
Proof.
  destruct (forward_uniform_field
              (NeuralSemiLagrangian_init still_air 1 (4, 8)%nat false)
              (full [1; 1; 4; 8]%nat 1) lat4 lon8 (1 / 100) 1
              1 1 4 8 6 10 (zero_predictor 2 (full [1; 1; 4; 8]%nat 1))
              (full [] 0) (- (3 * PI / 8)) (3 * PI / 8) 0 (7 * PI / 4)
              eq_refl eq_refl eq_refl eq_refl eq_refl eq_refl eq_refl
              lat4_extrema lon8_extrema)
    as (out & Hfw & Hout & Hitems).
  - lia.
  - lia.
  - intros b c y x. apply geocyclic_padding_full.
  - exists out. split; [exact Hfw|]. split; [exact Hout|].
    intros i j Hi Hj. rewrite (Hitems 0 0 i j)%nat by lia.
    split; [reflexivity|].
    replace (1 - 1) with 0 by ring. rewrite Rabs_R0. lra.
Qed.

(** ** The deterministic model runs *)

Lemma tensor_add_same_shape (a b : Tensor) :
  shape a = shape b ->
  exists r, tensor_add a b = Ok r /\ shape r = shape a.
Proof.
  intros E. unfold tensor_add, pointwise. cbn [broadcast_all].
  rewrite <- E, broadcast_same. cbn [bind].
  eexists. split; reflexivity.
Qed.

Lemma tensor_sub_same_shape (a b : Tensor) :
  shape a = shape b ->
  exists r, tensor_sub a b = Ok r /\ shape r = shape a.
Proof.
  intros E. unfold tensor_sub, pointwise. cbn [broadcast_all].
  rewrite <- E, broadcast_same. cbn [bind].
  eexists. split; reflexivity.
Qed.

(** In the non-variational configuration the example model returns a
    tensor for the example input. *)
Lemma deterministic_forward_returns (vals : list R) :
  returns (Paradis_forward (example_model false) (example_input vals)).
Proof.
  set (p := example_model false). set (x := example_input vals).
  destruct (extract_grids_spec p x 1 3 3 3 eq_refl)
    as (lat_grid & lon_grid & _ & _ & Hlat & Hlon & Hitems & Efw & _);
    [simpl; lia|].
  rewrite Efw. unfold run_substeps.
  change (Z.to_nat (num_substeps p)) with 1%nat. cbn [substeps].
  set (z := input_proj p x).
  assert (Hz : shape z = [1; 1; 3; 3]%nat) by reflexivity.
  assert (Elat : expanded_extrema lat_grid 1 = Ok (- (PI / 4), PI / 4)).
  { apply (expanded_extrema_spec lat_grid 1 1 3 3);
      [exact Hlat | lia | | | ].
    - exists 0%nat, 0%nat, 0%nat. repeat split; try lia.
      destruct (Hitems 0 0 0)%nat as (_ & _ & -> & _). reflexivity.
    - exists 0%nat, 2%nat, 0%nat. repeat split; try lia.
      destruct (Hitems 0 2 0)%nat as (_ & _ & -> & _). reflexivity.
    - intros b i j Hb Hi Hj.
      destruct (Hitems b i j) as (_ & _ & -> & _).
      revert b i j Hb Hi Hj. grid3_bounds. }
  assert (Elon : expanded_extrema lon_grid 1 = Ok (0, 4 * PI / 3)).
  { apply (expanded_extrema_spec lon_grid 1 1 3 3);
      [exact Hlon | lia | | | ].
    - exists 0%nat, 0%nat, 0%nat. repeat split; try lia.
      destruct (Hitems 0 0 0)%nat as (_ & _ & _ & ->). reflexivity.
    - exists 0%nat, 0%nat, 2%nat. repeat split; try lia.
      destruct (Hitems 0 0 2)%nat as (_ & _ & _ & ->). reflexivity.
    - intros b i j Hb Hi Hj.
      destruct (Hitems b i j) as (_ & _ & _ & ->).
      revert b i j Hb Hi Hj. grid3_bounds. }
  destruct (still_air_forward 1 (3, 3)%nat z lat_grid lon_grid (dt p)
              1 3 3 _ _ _ _ Hz Hlat Hlon Elat Elon)
    as (out & Hadv & Hout & _).
  unfold substep.
  change (advection p)
    with (NeuralSemiLagrangian_init still_air 1 (3, 3)%nat false).
  rewrite Hadv. cbn [bind]. cbn [diffusion_reaction p example_model bind].
  cbn [py_float_mul bind py_add].
  destruct (tensor_add_same_shape out
              (tmap (fun x0 => dt p * x0) out) eq_refl)
    as (inc & -> & Hinc).
  cbn [bind py_iadd].
  destruct (tensor_add_same_shape z inc) as (z1 & -> & Hz1);
    [rewrite Hinc, Hout; exact Hz|].
  cbn [bind].
  destruct (list_eq_dec Nat.eq_dec (shape z1) (shape z)) as [_ | Hne];
    [| congruence].
  cbn [bind].
  destruct (tensor_sub_same_shape z1 z Hz1) as (res & -> & Hres).
  cbn [bind].
  destruct (tensor_add_same_shape
              (channels_upto x (num_common_features p))
              (output_proj p res))
    as (y & Ey & _).
  - change (output_proj p res) with res.
    rewrite Hres, Hz1, Hz. reflexivity.
  - exists y. exact Ey.
Qed.

(** ** Moving the grid by a full turn *)




Lemma remainder_shift (a b : R) (k : Z) :
  0 < b -> Torch.remainder (a - b * IZR k) b = Torch.remainder a b.
Proof.
  intros Hb.
  pose proof (Zfloor_bound (a / b)) as [Hlo Hhi].
  assert (Ha : a = (a / b) * b) by (field; lra).
  rewrite (remainder_eq (a - b * IZR k) b (Zfloor (a / b) - k));
    [| exact Hb |].
  - unfold Torch.remainder. rewrite minus_IZR. lra.
  - rewrite minus_IZR. split.
    + apply Rmult_le_compat_r with (r := b) in Hlo; lra.
    + apply Rmult_lt_compat_r with (r := b) in Hhi; lra.
Qed.

Lemma wrap_longitude_shift (x : R) (k : Z) :
  wrap_longitude (x - 2 * IZR k) = wrap_longitude x.
Proof.
  unfold wrap_longitude; simpl.
  replace (x - 2 * IZR k + 1) with (x + 1 - 2 * IZR k) by ring.
  rewrite remainder_shift by lra. reflexivity.
Qed.







(** * Further properties of the coordinate transform *)

Lemma sin_shift (x : R) : sin (x + 2 * PI) = sin x.
Proof. rewrite sin_plus, sin_2PI, cos_2PI. ring. Qed.

Lemma cos_shift (x : R) : cos (x + 2 * PI) = cos x.
Proof. rewrite cos_plus, sin_2PI, cos_2PI. ring. Qed.

Lemma sin_cos_sqr (x : R) : sin x * sin x + cos x * cos x = 1.
Proof. pose proof (sin2_cos2 x) as E. unfold Rsqr in E. exact E. Qed.

(** X1: the value computed at line 51 is a sine: it lies in [-1, 1] for
    all angles, so over exact arithmetic the clamp of line 52 only acts
    within 1e-7 of the poles. *)
Theorem sin_lat_of_bounded (lat_prime lon_prime lat_p : R) :
  -1 <= sin_lat_of lat_prime lon_prime lat_p <= 1.
Proof.
  unfold sin_lat_of. cbv zeta.
  pose proof (sin_cos_sqr lat_prime) as E1.
  pose proof (sin_cos_sqr lon_prime) as E2.
  pose proof (sin_cos_sqr lat_p) as E3.
  set (a := sin lat_prime) in *. set (b := cos lat_prime) in *.
  set (c := cos lon_prime) in *. set (e := sin lon_prime) in *.
  set (s := sin lat_p) in *. set (t := cos lat_p) in *.
  assert (Hsq : (a * t + b * c * s) * (a * t + b * c * s) <= 1).
  { assert (H1 : (a * t + b * c * s) * (a * t + b * c * s)
                 + (a * s - b * c * t) * (a * s - b * c * t)
                 = (a * a + b * b * (c * c)) * (s * s + t * t)) by ring.
    assert (H2 : 0 <= (a * s - b * c * t) * (a * s - b * c * t))
      by apply Rle_0_sqr.
    assert (H3 : 0 <= b * b * (e * e))
      by (apply Rmult_le_pos; apply Rle_0_sqr).
    assert (H4 : a * a + b * b * (c * c) = 1 - b * b * (e * e))
      by (replace (c * c) with (1 - e * e) by lra;
          replace (a * a) with (1 - b * b) by lra; ring).
    rewrite H4, E3 in H1. lra. }
  split; nra.
Qed.

(** X2: the three quantities of lines 51-56 are the Cartesian coordinates
    of a point of the unit sphere: num^2 + den^2 + sin_lat^2 = 1, where
    the returned longitude is lon_p + atan2(num, den) modulo 2 pi. *)
Theorem rotated_point_on_unit_sphere
    (lat_prime lon_prime lat_p lon_p : R) :
  let num := cos lat_prime * sin lon_prime in
  let den := cos lat_prime * cos lon_prime * cos lat_p
             - sin lat_prime * sin lat_p in
  transform_lon lat_prime lon_prime lat_p lon_p
  = Torch.remainder (lon_p + Torch.atan2 num den + 2 * PI) (2 * PI)
  /\ num * num + den * den
     + sin_lat_of lat_prime lon_prime lat_p
       * sin_lat_of lat_prime lon_prime lat_p = 1.
Proof.
  cbv zeta. split; [reflexivity|].
  unfold sin_lat_of. cbv zeta.
  pose proof (sin_cos_sqr lat_prime) as E1.
  pose proof (sin_cos_sqr lon_prime) as E2.
  pose proof (sin_cos_sqr lat_p) as E3.
  set (a := sin lat_prime) in *. set (b := cos lat_prime) in *.
  set (c := cos lon_prime) in *. set (e := sin lon_prime) in *.
  set (s := sin lat_p) in *. set (t := cos lat_p) in *.
  replace (b * e * (b * e) + (b * c * t - a * s) * (b * c * t - a * s)
           + (a * t + b * c * s) * (a * t + b * c * s))
    with (b * b * (e * e + c * c * (s * s + t * t)) + a * a * (s * s + t * t))
    by ring.
  rewrite E3. replace (e * e + c * c * 1) with 1 by lra. lra.
Qed.

(** X3: with zero velocity the departure point is the arrival point, for
    an arrival latitude strictly between the poles whose sine the clamp
    leaves alone and an arrival longitude in [0, 2 pi). *)
Theorem zero_displacement_fixed_point (dt lat_p lon_p : R) :
  - (PI / 2) < lat_p < PI / 2 ->
  -1 + 1e-7 <= sin lat_p <= 1 - 1e-7 ->
  0 <= lon_p < 2 * PI ->
  transform_to_latlon (- 0 * dt) (- 0 * dt) lat_p lon_p = (lat_p, lon_p).
Proof.
  intros Hlat Hsin Hlon.
  destruct (zero_velocity_departure dt lat_p lon_p Hlat)
    as (_ & E & Hfst & Hsnd).
  specialize (Hfst Hsin). specialize (Hsnd Hlon).
  destruct (transform_to_latlon _ _ _ _) as [lat lon].
  cbn [fst snd] in *. subst. reflexivity.
Qed.

Lemma zero_displacement_fixed_point_witness :
  transform_to_latlon (- 0 * (1 / 100)) (- 0 * (1 / 100)) 0 0 = (0, 0).
Proof.
  apply (zero_displacement_fixed_point (1 / 100) 0 0).
  - pose proof PI_RGT_0. lra.
  - rewrite sin_0. lra.
  - pose proof PI_RGT_0. lra.
Defined.

Lemma atan2_sin_cos (x : R) :
  - (PI / 2) < x < PI / 2 -> Torch.atan2 (sin x) (cos x) = x.
Proof.
  intros Hx. unfold Torch.atan2.
  destruct (Rlt_dec 0 (cos x)) as [_ | Hn];
    [| exfalso; apply Hn, cos_gt_0; lra].
  change (sin x / cos x) with (tan x). apply atan_tan, Hx.
Qed.

(** X4: on the equator, a displacement along the local longitude of less
    than a quarter turn keeps the latitude 0 and adds to the longitude:
    with v = 0 the departure point lies u * dt upstream on the equator. *)
Theorem equatorial_zonal_displacement (u dt lon_p : R) :
  - (PI / 2) < u * dt < PI / 2 ->
  transform_to_latlon (- 0 * dt) (- u * dt) 0 lon_p
  = (0, Torch.remainder (lon_p - u * dt + 2 * PI) (2 * PI)).
Proof.
  intros Hu.
  replace (- 0 * dt) with 0 by ring.
  unfold transform_to_latlon, transform_lat, transform_lon, clamped_sin_lat,
    sin_lat_of. cbv zeta. rewrite sin_0, cos_0.
  replace (0 * 1 + 1 * cos (- u * dt) * 0) with 0 by ring.
  rewrite clamp_inside by lra. rewrite asin_0.
  replace (1 * sin (- u * dt)) with (sin (- u * dt)) by ring.
  replace (1 * cos (- u * dt) * 1 - 0 * 0) with (cos (- u * dt)) by ring.
  rewrite atan2_sin_cos by lra.
  replace (lon_p + - u * dt + 2 * PI) with (lon_p - u * dt + 2 * PI) by ring.
  reflexivity.
Qed.

Lemma equatorial_zonal_displacement_witness :
  transform_to_latlon (- 0 * (1 / 10)) (- 1 * (1 / 10)) 0 0
  = (0, Torch.remainder (0 - 1 * (1 / 10) + 2 * PI) (2 * PI)).
Proof.
  apply (equatorial_zonal_displacement 1 (1 / 10) 0).
  pose proof PI2_1. lra.
Defined.

(** X5: a displacement along the local latitude that stays short of the
    poles adds to the latitude and leaves the longitude (modulo 2 pi)
    alone. *)
Theorem meridional_displacement (lat_prime lat_p lon_p : R) :
  - (PI / 2) < lat_p + lat_prime < PI / 2 ->
  -1 + 1e-7 <= sin (lat_p + lat_prime) <= 1 - 1e-7 ->
  transform_to_latlon lat_prime 0 lat_p lon_p
  = (lat_p + lat_prime, Torch.remainder (lon_p + 2 * PI) (2 * PI)).
Proof.
  intros Hx Hs.
  unfold transform_to_latlon, transform_lat, transform_lon, clamped_sin_lat,
    sin_lat_of. cbv zeta. rewrite sin_0, cos_0.
  replace (sin lat_prime * cos lat_p + cos lat_prime * 1 * sin lat_p)
    with (sin (lat_p + lat_prime)) by (rewrite sin_plus; ring).
  replace (cos lat_prime * 1 * cos lat_p - sin lat_prime * sin lat_p)
    with (cos (lat_p + lat_prime)) by (rewrite cos_plus; ring).
  rewrite clamp_inside by exact Hs.
  rewrite asin_sin by lra.
  replace (cos lat_prime * 0) with 0 by ring.
  rewrite atan2_0_pos by (apply cos_gt_0; lra).
  replace (lon_p + 0 + 2 * PI) with (lon_p + 2 * PI) by ring.
  reflexivity.
Qed.

Lemma meridional_displacement_witness :
  transform_to_latlon 0 0 (PI / 6) 0
  = (PI / 6 + 0, Torch.remainder (0 + 2 * PI) (2 * PI)).
Proof.
  apply (meridional_displacement 0 (PI / 6) 0).
  - pose proof PI_RGT_0. lra.
  - replace (PI / 6 + 0) with (PI / 6) by ring. rewrite sin_PI6. lra.
Defined.

Lemma atan2_0_neg (x : R) : x < 0 -> Torch.atan2 0 x = PI.
Proof.
  intros Hx. unfold Torch.atan2.
  destruct (Rlt_dec 0 x); [lra|].
  destruct (Rlt_dec x 0); [|contradiction].
  destruct (Rle_dec 0 0); [|lra].
  unfold Rdiv. rewrite Rmult_0_l, atan_0. ring.
Qed.

(** X6: a displacement along the local latitude that carries the point
    over the north pole returns the latitude mirrored at the pole and the
    longitude of the opposite meridian, lon_p + pi modulo 2 pi. *)
Theorem north_pole_crossing (lat_prime lat_p lon_p : R) :
  PI / 2 < lat_p + lat_prime < 3 * (PI / 2) ->
  -1 + 1e-7 <= sin (lat_p + lat_prime) <= 1 - 1e-7 ->
  transform_to_latlon lat_prime 0 lat_p lon_p
  = (PI - (lat_p + lat_prime),
     Torch.remainder (lon_p + PI + 2 * PI) (2 * PI)).
Proof.
  intros Hx Hs.
  unfold transform_to_latlon, transform_lat, transform_lon, clamped_sin_lat,
    sin_lat_of. cbv zeta. rewrite sin_0, cos_0.
  replace (sin lat_prime * cos lat_p + cos lat_prime * 1 * sin lat_p)
    with (sin (lat_p + lat_prime)) by (rewrite sin_plus; ring).
  replace (cos lat_prime * 1 * cos lat_p - sin lat_prime * sin lat_p)
    with (cos (lat_p + lat_prime)) by (rewrite cos_plus; ring).
  rewrite clamp_inside by exact Hs.
  rewrite <- (sin_PI_x (lat_p + lat_prime)).
  rewrite asin_sin by lra.
  replace (cos lat_prime * 0) with 0 by ring.
  assert (Hc : cos (lat_p + lat_prime) < 0).
  { replace (lat_p + lat_prime) with ((lat_p + lat_prime - PI) + PI) by ring.
    rewrite neg_cos.
    assert (0 < cos (lat_p + lat_prime - PI)) by (apply cos_gt_0; lra).
    lra. }
  rewrite (atan2_0_neg _ Hc). reflexivity.
Qed.

Lemma north_pole_crossing_witness :
  transform_to_latlon (3 * (PI / 4)) 0 (PI / 4) 0
  = (PI - (PI / 4 + 3 * (PI / 4)),
     Torch.remainder (0 + PI + 2 * PI) (2 * PI)).
Proof.
  apply (north_pole_crossing (3 * (PI / 4)) (PI / 4) 0).
  - pose proof PI_RGT_0. lra.
  - replace (PI / 4 + 3 * (PI / 4)) with PI by field.
    rewrite sin_PI. lra.
Defined.

(** X7: the transform is periodic with period 2 pi in each of its four
    angles. *)
Theorem transform_to_latlon_periodic
    (lat_prime lon_prime lat_p lon_p : R) :
  transform_to_latlon (lat_prime + 2 * PI) lon_prime lat_p lon_p
  = transform_to_latlon lat_prime lon_prime lat_p lon_p
  /\ transform_to_latlon lat_prime (lon_prime + 2 * PI) lat_p lon_p
     = transform_to_latlon lat_prime lon_prime lat_p lon_p
  /\ transform_to_latlon lat_prime lon_prime (lat_p + 2 * PI) lon_p
     = transform_to_latlon lat_prime lon_prime lat_p lon_p
  /\ transform_to_latlon lat_prime lon_prime lat_p (lon_p + 2 * PI)
     = transform_to_latlon lat_prime lon_prime lat_p lon_p.
Proof.
  repeat split;
    try (unfold transform_to_latlon, transform_lat, transform_lon,
           clamped_sin_lat, sin_lat_of; cbv zeta;
         rewrite ?sin_shift, ?cos_shift; reflexivity).
  apply transform_to_latlon_shift.
Qed.

(** * Further properties of the grid mapping *)

(** X8: the longitude wrap of line 117 maps into [-1, 1), has period 2,
    leaves [-1, 1) unchanged and sends the end point +1 to -1. *)
Theorem wrap_longitude_properties (x : R) (k : Z) :
  -1 <= wrap_longitude x < 1
  /\ wrap_longitude (x + 2 * IZR k) = wrap_longitude x
  /\ wrap_longitude (wrap_longitude x) = wrap_longitude x
  /\ wrap_longitude (-1) = -1
  /\ wrap_longitude 1 = -1.
Proof.
  split; [apply wrap_longitude_range|]. split; [|split; [|split]].
  - replace (x + 2 * IZR k) with (x - 2 * IZR (- k))
      by (rewrite opp_IZR; ring).
    apply wrap_longitude_shift.
  - pose proof (wrap_longitude_range x) as Hr.
    rewrite (wrap_longitude_eval (wrap_longitude x) 0); lra.
  - rewrite (wrap_longitude_eval (-1) 0); lra.
  - rewrite (wrap_longitude_eval 1 1); lra.
Qed.

(** X9: the two mirror assignments of lines 127-128 together: values in
    [-1, 1] are kept, values above 1 are reflected at 1, values in
    [-3, -1) are reflected at -1, and values below -3 are reflected
    twice, which moves them up by 4. *)
Theorem mirror_latitude_piecewise_form (y : R) :
  (y < -3 -> mirror_latitude y = 4 + y)
  /\ (-3 <= y < -1 -> mirror_latitude y = - (2 + y))
  /\ (-1 <= y <= 1 -> mirror_latitude y = y)
  /\ (1 < y -> mirror_latitude y = 2 - y).
Proof.
  destruct (mirror_latitude_cases y)
    as [[Hy E] | [[Hy E] | [[Hy E] | [Hy E]]]];
    repeat split; intros; try lra; exact E.
Qed.

(** X10: beyond a pole (|grid_y| > 1) the longitude roll of lines 120-124
    moves a wrapped grid_x by exactly one half of the domain and keeps it
    in [-1, 1]; applied twice it restores every grid_x strictly between -1
    and 1. *)
Theorem geocyclic_roll_half_turn (x y : R) :
  1 < Rabs y ->
  -1 < x < 1 ->
  Rabs (geocyclic_roll x y - x) = 1
  /\ -1 <= geocyclic_roll x y <= 1
  /\ geocyclic_roll (geocyclic_roll x y) y = x.
Proof.
  intros Hy Hx. unfold geocyclic_roll; simpl.
  torch_cases; try lra; repeat split; try lra;
    unfold Rabs; destruct Rcase_abs; lra.
Qed.

Lemma geocyclic_roll_half_turn_witness :
  Rabs (geocyclic_roll (1 / 2) 2 - 1 / 2) = 1
  /\ -1 <= geocyclic_roll (1 / 2) 2 <= 1
  /\ geocyclic_roll (geocyclic_roll (1 / 2) 2) 2 = 1 / 2.
Proof.
  apply (geocyclic_roll_half_turn (1 / 2) 2).
  - unfold Rabs. destruct Rcase_abs; lra.
  - lra.
Defined.

(** X11: with IEEE entries a NaN departure coordinate is never masked by
    the wrap, the masks or the mirror: a NaN longitude gives a NaN grid_x
    and a NaN latitude a NaN grid_y, whatever the extrema. *)
Theorem grid_mapping_propagates_nan
    (lat_dep lon_dep min_lat max_lat min_lon max_lon : ieee) :
  fst (grid_mapping lat_dep NaN min_lat max_lat min_lon max_lon) = NaN
  /\ snd (grid_mapping NaN lon_dep min_lat max_lat min_lon max_lon) = NaN.
Proof.
  unfold grid_mapping. cbn [fst snd]. split.
  - assert (E : rescale NaN min_lon max_lon = NaN)
      by (unfold rescale; simpl; destruct min_lon, max_lon; reflexivity).
    rewrite E. change (wrap_longitude NaN) with NaN.
    apply geocyclic_roll_nan.
  - assert (E : rescale NaN min_lat max_lat = NaN)
      by (unfold rescale; simpl; destruct min_lat, max_lat; reflexivity).
    rewrite E. reflexivity.
Qed.

(** * Further properties of the advection step *)

Lemma expanded_extrema_exists (grid : Tensor) (C B H W : nat) :
  shape grid = [B; H; W] ->
  (0 < B)%nat -> (0 < C)%nat -> (0 < H)%nat -> (0 < W)%nat ->
  exists lo hi, expanded_extrema grid C = Ok (lo, hi).
Proof.
  intros Hs HB HC HH HW. unfold expanded_extrema, unsqueeze_expand.
  rewrite Hs. cbn [bind]. unfold entries. cbn [shape].
  assert (Hn : (0 < numel [B; C; H; W])%nat) by (cbn [numel]; nia).
  destruct (numel [B; C; H; W]) as [|n]; [lia|].
  cbn [seq map reduce_min reduce_max bind].
  eexists; eexists; reflexivity.
Qed.

Lemma forward_init_returns
    (lib : Collaborators) (Hlib : interfaces lib)
    (C : nat) (mesh : nat * nat) (variational : bool)
    (hidden_features lat_grid lon_grid : Tensor) (dt : R) (B H W : nat) :
  shape hidden_features = [B; C; H; W] ->
  shape lat_grid = [B; H; W] ->
  shape lon_grid = [B; H; W] ->
  (0 < B)%nat -> (0 < C)%nat -> (0 < H)%nat -> (0 < W)%nat ->
  let m := NeuralSemiLagrangian_init lib C mesh variational in
  exists velocities kl_loss out,
    call_velocity_net m hidden_features = Ok (velocities, kl_loss)
    /\ forward m hidden_features lat_grid lon_grid dt
       = Ok (if variational
             then VTuple [VTensor out; VTensor kl_loss]
             else VTensor out)
    /\ shape out = shape hidden_features.
Proof.
  intros Hhf Hlat Hlon HB HC HH HW m.
  destruct (call_velocity_net_init lib Hlib C mesh variational
              hidden_features B H W Hhf) as (vel & kl & Hcall & Hvel).
  destruct (expanded_extrema_exists lat_grid C B H W Hlat HB HC HH HW)
    as (min_lat & max_lat & Elat).
  destruct (expanded_extrema_exists lon_grid C B H W Hlon HB HC HH HW)
    as (min_lon & max_lon & Elon).
  destruct (forward_spec m hidden_features lat_grid lon_grid dt
              B C H W (H + 2) (W + 2) vel kl
              min_lat max_lat min_lon max_lon)
    as (out & Hfw & Hout & _); try assumption; try reflexivity.
  - apply (GeoCyclicPadding_shape lib Hlib 1). exact Hhf.
  - exists vel, kl, out. split; [exact Hcall|].
    split; [exact Hfw | rewrite Hout, Hhf; reflexivity].
Qed.

(** X12: for imported modules that keep their interfaces and a non-empty
    [B, C, H, W] input with [B, H, W] grids, the advection step returns:
    in the deterministic configuration a tensor of the shape of its input,
    in the variational configuration the pair of such a tensor and the
    loss exactly as the predictor returned it. *)
Theorem forward_returns_input_shape
    (lib : Collaborators) (Hlib : interfaces lib)
    (C : nat) (mesh : nat * nat) (variational : bool)
    (hidden_features lat_grid lon_grid : Tensor) (dt : R) (B H W : nat) :
  shape hidden_features = [B; C; H; W] ->
  shape lat_grid = [B; H; W] ->
  shape lon_grid = [B; H; W] ->
  (0 < B)%nat -> (0 < C)%nat -> (0 < H)%nat -> (0 < W)%nat ->
  let m := NeuralSemiLagrangian_init lib C mesh variational in
  exists velocities kl_loss out,
    call_velocity_net m hidden_features = Ok (velocities, kl_loss)
    /\ forward m hidden_features lat_grid lon_grid dt
       = Ok (if variational
             then VTuple [VTensor out; VTensor kl_loss]
             else VTensor out)
    /\ shape out = shape hidden_features.
Proof.
  exact (forward_init_returns lib Hlib C mesh variational
           hidden_features lat_grid lon_grid dt B H W).
Qed.

Lemma forward_returns_input_shape_witness :
  let hidden_features := zonal_field 3 [0; 1; 0] in
  let m := NeuralSemiLagrangian_init still_air 1 (3, 3)%nat true in
  exists velocities kl_loss out,
    call_velocity_net m hidden_features = Ok (velocities, kl_loss)
    /\ forward m hidden_features lat3 lon3 (1 / 100)
       = Ok (if true
             then VTuple [VTensor out; VTensor kl_loss]
             else VTensor out)
    /\ shape out = shape hidden_features.
Proof.
  apply (forward_returns_input_shape still_air still_air_interfaces
           1 (3, 3)%nat true (zonal_field 3 [0; 1; 0]) lat3 lon3 (1 / 100)
           1 3 3); first [reflexivity | lia].
Defined.

Lemma entries_empty (t : Tensor) :
  numel (shape t) = 0%nat -> entries t = [].
Proof. intros E. unfold entries. rewrite E. reflexivity. Qed.

Lemma unsqueeze_expand_inv (t t' : Tensor) (c : nat) :
  unsqueeze_expand t c = Ok t' ->
  length (shape t) = 3%nat
  /\ numel (shape t') = (c * numel (shape t))%nat.
Proof.
  unfold unsqueeze_expand.
  destruct (shape t) as [|b [|h [|w [|]]]]; try discriminate.
  intros E. injection E as <-. split; [reflexivity|].
  cbn [shape numel]. lia.
Qed.

Lemma sampling_grid_raises
    (C : nat) (u v lat_grid lon_grid : Tensor) (dt : R) :
  length (shape lat_grid) <> 3%nat \/ numel (shape lat_grid) = 0%nat
  \/ length (shape lon_grid) <> 3%nat \/ numel (shape lon_grid) = 0%nat ->
  raises (sampling_grid C u v lat_grid lon_grid dt).
Proof.
  intros Hbad. unfold sampling_grid.
  destruct (unsqueeze_expand lat_grid C) as [lat' | e] eqn:Elat;
    [| eexists; reflexivity].
  cbn [bind].
  destruct (unsqueeze_expand lon_grid C) as [lon' | e] eqn:Elon;
    [| eexists; reflexivity].
  cbn [bind].
  apply unsqueeze_expand_inv in Elat as [Hl1 Hn1].
  apply unsqueeze_expand_inv in Elon as [Hl2 Hn2].
  destruct Hbad as [Hb | [Hb | [Hb | Hb]]]; try contradiction.
  - rewrite (entries_empty lat') by (rewrite Hn1, Hb; lia).
    eexists; reflexivity.
  - destruct (reduce_min (entries lat')) as [a | e];
      [| eexists; reflexivity].
    cbn [bind].
    destruct (reduce_max (entries lat')) as [b | e];
      [| eexists; reflexivity].
    cbn [bind].
    rewrite (entries_empty lon') by (rewrite Hn2, Hb; lia).
    eexists; reflexivity.
Qed.

(** X13: a grid that is not three-dimensional, or that has no entries,
    makes the advection step raise, for every model and every feature
    tensor: the expansion over the channels needs a [B, H, W] grid and the
    extrema need at least one entry. *)
Theorem forward_raises_on_malformed_grid
    (m : NeuralSemiLagrangian)
    (hidden_features lat_grid lon_grid : Tensor) (dt : R) :
  length (shape lat_grid) <> 3%nat \/ numel (shape lat_grid) = 0%nat
  \/ length (shape lon_grid) <> 3%nat \/ numel (shape lon_grid) = 0%nat ->
  raises (forward m hidden_features lat_grid lon_grid dt).
Proof.
  intros Hbad. unfold forward.
  destruct (call_velocity_net m hidden_features) as [[vel kl] | e];
    [| eexists; reflexivity].
  cbn [bind].
  destruct (split_velocities _ _ vel) as [[u v] | e];
    [| eexists; reflexivity].
  cbn [bind].
  destruct (sampling_grid_raises (hidden_dim m) u v lat_grid lon_grid dt Hbad)
    as [e He].
  rewrite He. eexists; reflexivity.
Qed.

Lemma forward_raises_on_malformed_grid_witness :
  raises (forward still3 (zonal_field 3 [0; 1; 0])
                  (lat_grid_of [] 3) lon3 (1 / 100)).
Proof.
  apply (forward_raises_on_malformed_grid still3 (zonal_field 3 [0; 1; 0])
           (lat_grid_of [] 3) lon3 (1 / 100)).
  right; left. reflexivity.
Defined.

(** X14: on a grid with min < max in latitude and in longitude, when the
    padded field is uniform, the advected field is uniform with the same
    value, for every velocity field and every time step: the cubic weights
    of the sampler sum to one. *)
Theorem uniform_field_is_preserved
    (m : NeuralSemiLagrangian)
    (hidden_features lat_grid lon_grid : Tensor) (dt k : R)
    (B C H W Hp Wp : nat) (velocities kl_loss : Tensor)
    (min_lat max_lat min_lon max_lon : R) :
  hidden_dim m = C ->
  shape hidden_features = [B; C; H; W] ->
  shape lat_grid = [B; H; W] ->
  shape lon_grid = [B; H; W] ->
  call_velocity_net m hidden_features = Ok (velocities, kl_loss) ->
  shape velocities = [B; (2 * C)%nat; H; W] ->
  shape (padding_interp m hidden_features) = [B; C; Hp; Wp] ->
  expanded_extrema lat_grid C = Ok (min_lat, max_lat) ->
  expanded_extrema lon_grid C = Ok (min_lon, max_lon) ->
  min_lat < max_lat ->
  min_lon < max_lon ->
  (0 < Hp)%nat -> (0 < Wp)%nat ->
  (forall b c y x,
     item (padding_interp m hidden_features) [b; c; y; x] = k) ->
  exists out,
    forward m hidden_features lat_grid lon_grid dt
    = Ok (wrap_output m out kl_loss)
    /\ shape out = [B; C; H; W]
    /\ forall b c i j,
         (b < B)%nat -> (c < C)%nat -> (i < H)%nat -> (j < W)%nat ->
         item out [b; c; i; j] = k.
Proof.
  intros HC Hhf Hlat Hlon Hcall Hvel Hpad Elat Elon _ _.
  exact (forward_uniform_field m hidden_features lat_grid lon_grid dt k
           B C H W Hp Wp velocities kl_loss
           min_lat max_lat min_lon max_lon
           HC Hhf Hlat Hlon Hcall Hvel Hpad Elat Elon).
Qed.

Lemma uniform_field_is_preserved_witness :
  let m := NeuralSemiLagrangian_init still_air 1 (4, 8)%nat false in
  exists out,
    forward m (full [1; 1; 4; 8]%nat 1) lat4 lon8 (1 / 100)
    = Ok (wrap_output m out (full [] 0))
    /\ shape out = [1; 1; 4; 8]%nat
    /\ forall b c i j,
         (b < 1)%nat -> (c < 1)%nat -> (i < 4)%nat -> (j < 8)%nat ->
         item out [b; c; i; j] = 1.
Proof.
  apply (uniform_field_is_preserved
           (NeuralSemiLagrangian_init still_air 1 (4, 8)%nat false)
           (full [1; 1; 4; 8]%nat 1) lat4 lon8 (1 / 100) 1
           1 1 4 8 6 10 (zero_predictor 2 (full [1; 1; 4; 8]%nat 1))
           (full [] 0) (- (3 * PI / 8)) (3 * PI / 8) 0 (7 * PI / 4)
           eq_refl eq_refl eq_refl eq_refl eq_refl eq_refl eq_refl
           lat4_extrema lon8_extrema).
  - pose proof PI_RGT_0. lra.
  - pose proof PI_RGT_0. lra.
  - lia.
  - lia.
  - intros b c y x. apply geocyclic_padding_full.
Defined.

(** * Further properties of the outer model *)

(** X15: [Paradis.__init__] raises ZeroDivisionError exactly when the
    number of sub-steps is zero; otherwise the sub-steps' time steps add up
    to the base time step in units of the synoptic time scale, and the
    advection layer gets the ensemble flag and hidden_multiplier times the
    number of dynamic channels as its hidden dimension. *)
Theorem Paradis_init_time_step
    (lib : Collaborators) (layers : Layers) (cfg : Config) :
  (cfg_num_substeps cfg = 0%Z ->
   Paradis_init lib layers cfg = Raise ZeroDivisionError)
  /\ (cfg_num_substeps cfg <> 0%Z ->
      exists p,
        Paradis_init lib layers cfg = Ok p
        /\ num_substeps p = cfg_num_substeps cfg
        /\ IZR (num_substeps p) * dt p = base_dt cfg / SYNOPTIC_TIME_SCALE
        /\ variational (advection p) = ensemble_enable cfg
        /\ hidden_dim (advection p)
           = (hidden_multiplier cfg
              * (num_dyn_input_features cfg + num_forcings cfg))%nat).
Proof.
  unfold Paradis_init. split.
  - intros ->. reflexivity.
  - intros Hn.
    destruct (Z.eqb_spec (cfg_num_substeps cfg) 0) as [E | _];
      [contradiction|].
    cbn [bind]. eexists. split; [reflexivity|].
    cbn [num_substeps dt advection NeuralSemiLagrangian_init hidden_dim].
    split; [reflexivity|]. split; [| split; reflexivity].
    assert (Hz : IZR (cfg_num_substeps cfg) <> 0)
      by (apply not_0_IZR; exact Hn).
    unfold SYNOPTIC_TIME_SCALE. field. repeat split; first [exact Hz | lra].
Qed.

(** X16: an input with fewer than two channels after the dynamic ones has
    no latitude channel to select: [Paradis.forward] raises IndexError
    before any layer is called. *)
Theorem forward_without_grid_channels_raises
    (p : Paradis) (x : Tensor) (B C H W : nat) :
  shape x = [B; C; H; W] ->
  (C < num_dynamic_channels p + 2)%nat ->
  Paradis_forward p x = Raise IndexError.
Proof.
  intros Hs Hc. unfold Paradis_forward, extract_grids, select_channel.
  cbn [channels_from shape]. rewrite Hs.
  destruct (Z.ltb_spec (-2) 0) as [_ | Hge]; [| lia].
  destruct (_ && _)%bool eqn:Hin; [| reflexivity].
  apply andb_prop in Hin as [H1 H2]. apply Z.leb_le in H1. lia.
Qed.

Lemma forward_without_grid_channels_raises_witness :
  Paradis_forward (example_model false) (zonal_field 3 [0; 1; 0])
  = Raise IndexError.
Proof.
  apply (forward_without_grid_channels_raises (example_model false)
           (zonal_field 3 [0; 1; 0]) 1 1 3 3).
  - reflexivity.
  - simpl. lia.
Defined.

Lemma substep_deterministic_returns
    (lib : Collaborators) (Hlib : interfaces lib)
    (p : Paradis) (C : nat) (mesh : nat * nat)
    (lat_grid lon_grid z : Tensor) (B H W : nat) :
  advection p = NeuralSemiLagrangian_init lib C mesh false ->
  shape lat_grid = [B; H; W] ->
  shape lon_grid = [B; H; W] ->
  (0 < B)%nat -> (0 < C)%nat -> (0 < H)%nat -> (0 < W)%nat ->
  (forall t, shape t = [B; C; H; W] ->
     exists t', diffusion_reaction p (VTensor t) = Ok (VTensor t')
                /\ shape t' = [B; C; H; W]) ->
  shape z = [B; C; H; W] ->
  exists z', substep p lat_grid lon_grid z = Ok z'
             /\ shape z' = [B; C; H; W].
Proof.
  intros Hadv Hlat Hlon HB HC HH HW Hdiff Hz.
  destruct (forward_init_returns lib Hlib C mesh false z lat_grid lon_grid
              (dt p) B H W Hz Hlat Hlon HB HC HH HW)
    as (vel & kl & out & _ & Hfw & Hout).
  rewrite Hz in Hout.
  unfold substep. rewrite Hadv, Hfw. cbn [bind].
  destruct (Hdiff out Hout) as (dz & -> & Hdz). cbn [bind py_float_mul py_add].
  destruct (tensor_add_same_shape out (tmap (fun x => dt p * x) dz))
    as (inc & -> & Hinc); [cbn [tmap shape]; congruence|].
  cbn [bind py_iadd].
  destruct (tensor_add_same_shape z inc) as (z1 & -> & Hz1);
    [congruence|].
  cbn [bind].
  destruct (list_eq_dec Nat.eq_dec (shape z1) (shape z)) as [_ | Hne];
    [| congruence].
  exists z1. split; [reflexivity | congruence].
Qed.

Lemma substeps_deterministic_return
    (lib : Collaborators) (Hlib : interfaces lib)
    (p : Paradis) (C : nat) (mesh : nat * nat)
    (lat_grid lon_grid : Tensor) (B H W : nat) (n : nat) :
  advection p = NeuralSemiLagrangian_init lib C mesh false ->
  shape lat_grid = [B; H; W] ->
  shape lon_grid = [B; H; W] ->
  (0 < B)%nat -> (0 < C)%nat -> (0 < H)%nat -> (0 < W)%nat ->
  (forall t, shape t = [B; C; H; W] ->
     exists t', diffusion_reaction p (VTensor t) = Ok (VTensor t')
                /\ shape t' = [B; C; H; W]) ->
  forall z, shape z = [B; C; H; W] ->
  exists z', substeps p lat_grid lon_grid n z = Ok z'
             /\ shape z' = [B; C; H; W].
Proof.
  intros Hadv Hlat Hlon HB HC HH HW Hdiff.
  induction n as [|n IH]; intros z Hz; cbn [substeps].
  - exists z. split; [reflexivity | exact Hz].
  - destruct (substep_deterministic_returns lib Hlib p C mesh
                lat_grid lon_grid z B H W
                Hadv Hlat Hlon HB HC HH HW Hdiff Hz) as (z1 & -> & Hz1).
    cbn [bind]. apply IH, Hz1.
Qed.

(** X17: in the deterministic configuration, with imported modules and
    layers that keep the shapes of their interfaces, [Paradis.forward]
    returns for every non-empty input with at least two static channels
    and every number of sub-steps, and the result has the batch and grid
    sizes of the input and [num_common_features] channels. *)
Theorem deterministic_forward_returns_shape
    (lib : Collaborators) (Hlib : interfaces lib)
    (p : Paradis) (C : nat) (mesh : nat * nat)
    (x : Tensor) (B Cin H W : nat) :
  advection p = NeuralSemiLagrangian_init lib C mesh false ->
  shape x = [B; Cin; H; W] ->
  (num_dynamic_channels p + 2 <= Cin)%nat ->
  (num_common_features p <= Cin)%nat ->
  (0 < B)%nat -> (0 < C)%nat -> (0 < H)%nat -> (0 < W)%nat ->
  shape (input_proj p x) = [B; C; H; W] ->
  (forall t, shape t = [B; C; H; W] ->
     exists t', diffusion_reaction p (VTensor t) = Ok (VTensor t')
                /\ shape t' = [B; C; H; W]) ->
  (forall t, shape t = [B; C; H; W] ->
     shape (output_proj p t) = [B; num_common_features p; H; W]) ->
  exists y,
    Paradis_forward p x = Ok y
    /\ shape y = [B; num_common_features p; H; W].
Proof.
  intros Hadv Hx Hc Hncf HB HC HH HW Hz Hdiff Hproj.
  destruct (extract_grids_spec p x B Cin H W Hx Hc)
    as (lat_grid & lon_grid & _ & _ & Hlat & Hlon & _ & Efw & _).
  rewrite Efw. unfold run_substeps.
  destruct (substeps_deterministic_return lib Hlib p C mesh
              lat_grid lon_grid B H W (Z.to_nat (num_substeps p))
              Hadv Hlat Hlon HB HC HH HW Hdiff (input_proj p x) Hz)
    as (z & -> & Hz').
  cbn [bind].
  destruct (tensor_sub_same_shape z (input_proj p x)) as (res & -> & Hres);
    [congruence|].
  cbn [bind].
  assert (Hup : shape (channels_upto x (num_common_features p))
                = [B; num_common_features p; H; W]).
  { unfold channels_upto. cbn [shape]. rewrite Hx.
    rewrite Nat.min_r by exact Hncf. reflexivity. }
  destruct (tensor_add_same_shape
              (channels_upto x (num_common_features p))
              (output_proj p res)) as (y & -> & Hy).
  - rewrite Hup. symmetry. apply Hproj. congruence.
  - exists y. split; [reflexivity | congruence].
Qed.

Lemma deterministic_forward_returns_shape_witness :
  exists y,
    Paradis_forward (example_model false) (example_input [0; 1; 0]) = Ok y
    /\ shape y
       = [1%nat; num_common_features (example_model false); 3%nat; 3%nat].
Proof.
  apply (deterministic_forward_returns_shape still_air still_air_interfaces
           (example_model false) 1 (3, 3)%nat (example_input [0; 1; 0])
           1 3 3 3); try reflexivity; try (simpl; lia).
  - intros t Ht. exists t. split; [reflexivity | exact Ht].
  - intros t Ht. exact Ht.
Defined.

(** * Sample positions in the padded field *)

(** X18: for a sampling coordinate in [-1, 1], the rescale of lines
    139-140 followed by the sampler's corner-aligned pixel mapping gives a
    position between 1 - 1/(n+2) and n + 1/(n+2) in the padded field of
    size n + 2: strictly inside the image, less than one pixel from the
    unpadded cells. *)
Theorem padded_sample_position_inside (g : R) (n : nat) :
  -1 <= g <= 1 ->
  1 - 1 / (INR n + 2)
  <= GridSample.unnormalize (rescale_to_padded g n (n + 2)) (n + 2)
  <= INR n + 1 / (INR n + 2)
  /\ 0 < GridSample.unnormalize (rescale_to_padded g n (n + 2)) (n + 2)
     < INR (n + 2) - 1.
Proof.
  intros Hg.
  pose proof (unnormalize_rescaled_plus_one n) as Ep.
  pose proof (unnormalize_rescaled_minus_one n) as Em.
  pose proof (inv_plus_two_bounds n) as Hb.
  pose proof (pos_INR n) as Hn.
  rewrite rescale_to_padded_ratio in *.
  unfold GridSample.unnormalize in *.
  rewrite plus_INR in *. simpl INR in *.
  set (r := INR n / (INR n + 2)) in *.
  assert (Hr : 0 <= r)
    by (unfold r; apply Rle_mult_inv_pos; lra).
  assert (H1 : -1 * r <= g * r <= 1 * r) by (split; nra).
  assert (Hlo : (-1 * r + 1) / 2 * (INR n + (1 + 1) - 1)
                <= (g * r + 1) / 2 * (INR n + (1 + 1) - 1)) by nra.
  assert (Hhi : (g * r + 1) / 2 * (INR n + (1 + 1) - 1)
                <= (1 * r + 1) / 2 * (INR n + (1 + 1) - 1)) by nra.
  repeat split; lra.
Qed.

Lemma padded_sample_position_inside_witness :
  1 - 1 / (INR 8 + 2)
  <= GridSample.unnormalize (rescale_to_padded (1 / 2) 8 (8 + 2)) (8 + 2)
  <= INR 8 + 1 / (INR 8 + 2)
  /\ 0 < GridSample.unnormalize (rescale_to_padded (1 / 2) 8 (8 + 2)) (8 + 2)
     < INR (8 + 2) - 1.
Proof.
  apply (padded_sample_position_inside (1 / 2) 8). lra.
Defined.

(** X19: a displacement along the local latitude that carries the point
    over the south pole returns the latitude mirrored at that pole and the
    longitude of the opposite meridian, lon_p + pi modulo 2 pi. *)
Theorem south_pole_crossing (lat_prime lat_p lon_p : R) :
  - (3 * (PI / 2)) < lat_p + lat_prime < - (PI / 2) ->
  -1 + 1e-7 <= sin (lat_p + lat_prime) <= 1 - 1e-7 ->
  transform_to_latlon lat_prime 0 lat_p lon_p
  = (- PI - (lat_p + lat_prime),
     Torch.remainder (lon_p + PI + 2 * PI) (2 * PI)).
Proof.
  intros Hx Hs.
  unfold transform_to_latlon, transform_lat, transform_lon, clamped_sin_lat,
    sin_lat_of. cbv zeta. rewrite sin_0, cos_0.
  replace (sin lat_prime * cos lat_p + cos lat_prime * 1 * sin lat_p)
    with (sin (lat_p + lat_prime)) by (rewrite sin_plus; ring).
  replace (cos lat_prime * 1 * cos lat_p - sin lat_prime * sin lat_p)
    with (cos (lat_p + lat_prime)) by (rewrite cos_plus; ring).
  rewrite clamp_inside by exact Hs.
  assert (Es : sin (lat_p + lat_prime) = sin (- PI - (lat_p + lat_prime))).
  { replace (- PI - (lat_p + lat_prime))
      with (- ((lat_p + lat_prime) + PI)) by ring.
    rewrite sin_neg, neg_sin. ring. }
  rewrite Es. rewrite asin_sin by lra.
  replace (cos lat_prime * 0) with 0 by ring.
  assert (Hc : cos (lat_p + lat_prime) < 0).
  { assert (0 < cos ((lat_p + lat_prime) + PI)) by (apply cos_gt_0; lra).
    rewrite neg_cos in H. lra. }
  rewrite (atan2_0_neg _ Hc). reflexivity.
Qed.

Lemma south_pole_crossing_witness :
  transform_to_latlon (- (3 * (PI / 4))) 0 (- (PI / 4)) 0
  = (- PI - (- (PI / 4) + - (3 * (PI / 4))),
     Torch.remainder (0 + PI + 2 * PI) (2 * PI)).
Proof.
  apply (south_pole_crossing (- (3 * (PI / 4))) (- (PI / 4)) 0).
  - pose proof PI_RGT_0. lra.
  - replace (- (PI / 4) + - (3 * (PI / 4))) with (- PI) by field.
    rewrite sin_neg, sin_PI. lra.
Defined.
